(** * layerable-automata: a stack of event-driven automata

    A shallow embedding of [src/index.ts] (class [Automata] and class
    [State]) and the properties of its context stack, event queue and
    transition engine.

    Modelling choices, all of them visible in the definitions below:

    - JavaScript objects have identity and are shared by reference.  The
      context objects and the cargo objects live in two stores
      ([objects], [cargoes]); a reference is an index into its store and an
      allocation appends to it, so a reference once handed out is never
      reused.  [contexts] is the array of references [this.contexts].
    - A caller-supplied function (a state handler, an [onTransition]
      observer) is a function from what it is given to what it does: the
      new content of the cargo it was handed, the arguments of the
      [pushEvent] calls it made, and whether it returned or threw.  It also
      reads the stack, as the README's handlers do with [isRecentSystem].
      A handler runs atomically: an [await] on it is one step.  The
      [onUpdateContexts] hook is a pure notification.
    - Evaluation either returns a value or throws, and in both cases leaves
      a state behind: [Res].
    - What the engine does to the outside (the calls into caller-supplied
      code, the hook, the [latestTransition] stamp) is appended to [trace].
      [console.log] output and the value of the clock are left out.
    - [this.systems] and each system are maps from names; the properties
      that every JavaScript object inherits are not among their keys.
    - The generator behind [do] polls the queue on a timer; here a call of
      [do] on an empty queue simply has no outcome yet. *)

From Stdlib Require Import ZArith Lia Ascii String.
From stdpp Require Import base option list strings gmap.

Open Scope string_scope.
Open Scope list_scope.
Open Scope stdpp_scope.

(** ** Strings *)

(** [s.startsWith('#')] *)
Definition startsWithHash (s : string) : bool :=
  match s with
  | String "#"%char _ => true
  | _ => false
  end.

(** [s.slice(1)] *)
Definition slice1 (s : string) : string :=
  match s with
  | EmptyString => EmptyString
  | String _ r => r
  end.

(** ** Arrays *)

(** The relative index of [Array.prototype.slice]: a negative index counts
    from the end, and the result is clamped to [0, n]. *)
Definition relativeIndex (n k : Z) : nat :=
  Z.to_nat (if (k <? 0)%Z then Z.max (n + k) 0 else Z.min k n).

(** [a.slice(0, k)] *)
Definition sliceTo {A} (a : list A) (k : Z) : list A :=
  take (relativeIndex (Z.of_nat (length a)) k) a.

(** [a.slice(k)] *)
Definition sliceFrom {A} (a : list A) (k : Z) : list A :=
  drop (relativeIndex (Z.of_nat (length a)) k) a.

(** References are indices into a store. *)
Definition ref := nat.

(** [a.findIndex((c) => c === x)]: the first index, or -1. *)
Fixpoint findIndex (a : list ref) (x : ref) : Z :=
  match a with
  | [] => (-1)%Z
  | c :: a' =>
      if Nat.eqb c x then 0%Z
      else let i := findIndex a' x in
           if (i <? 0)%Z then (-1)%Z else (i + 1)%Z
  end.

(** [a[i]] for an integer [i]; [undefined] out of range. *)
Definition at_index {A} (a : list A) (i : Z) : option A :=
  if (i <? 0)%Z then None else a !! Z.to_nat i.

(** ** Data model *)

(** [event.data] is [any].  What the engine reads of it is the property
    [systemName], here a string where there is one; what it writes is
    [{ systemName }] and [{ context }]. *)
Inductive Data :=
  | DataSystemName (systemName : string)
  | DataContext (context : ref)
  | DataOther.

(** [interface Event { type?: string; name?: string; data?: any }];
    [None] is a field that is absent. *)
Record Event := mkEvent {
  type : option string;
  name : option string;
  data : option Data }.

(** [{}] *)
Definition emptyEvent : Event := mkEvent None None None.

(** [interface Context<Cargo>]; the cargo is held by reference. *)
Record Context := mkContext {
  system : string;
  currentState : string;
  cargo : ref }.

(** Where a handler is called from. *)
Inductive Site := AtDispatch | AtEnd | AtFinalize.

(** What the engine does to the outside. *)
Inductive Obs :=
  | ObsYield (event : Event)
      (* gen: [yield event] *)
  | ObsRun (site : Site) (context : ref) (systemName stateName : string)
           (event : Event) (stack : list ref)
      (* [state.run(event, cargo)], with [this.contexts] as it is then *)
  | ObsOnTransition (to from : string) (cargo : ref)
      (* [onTransition(to, from, cargo)] *)
  | ObsUpdateContexts
      (* [this.onUpdateContexts()] *)
  | ObsLatestTransition.
      (* [this.latestTransition = Date.now()] *)

(** How a call into caller-supplied code ends. *)
Inductive Completion (A : Type) :=
  | Returns (a : A)
  | Throws.
Arguments Returns {A} a.
Arguments Throws {A}.

(** What is thrown: a TypeError of the engine (a property read of
    [undefined]), whatever a handler threw, and, for the stores only, a
    reference to nothing, which the engine never makes. *)
Inductive Error := TypeError | HandlerError | InvalidRef.

Section Engine.

Variable Cargo : Type.

(** What a call into caller-supplied code does. *)
Record Effect (A : Type) := mkEffect {
  eff_cargo : Cargo;
  eff_pushed : list (option Event);
  eff_completion : Completion A }.
Arguments mkEffect {A} _ _ _.
Arguments eff_cargo {A} _.
Arguments eff_pushed {A} _.
Arguments eff_completion {A} _.

(** [type StateHandler<Cargo> = (event, cargo) => string | undefined | void]
    (or a promise of it); the last argument is the stack the handler can
    read through the automata it closes over. *)
Definition StateHandler : Type :=
  Event -> Cargo -> list Context -> Effect (option string).

(** [type OnTransitionHandler<Cargo> = (to, from, cargo) => void] *)
Definition OnTransitionHandler : Type :=
  string -> string -> Cargo -> Effect unit.

(** [class State<Cargo>] *)
Record State := mkState {
  handler : StateHandler;
  onTransitionHandler : option OnTransitionHandler }.

(** [interface System<Cargo> { [key: string]: State<Cargo> }] *)
Abbreviation System := (gmap string State).

(** [class Automata<Cargo>], with the two stores and the trace. *)
Record Automata := mkAutomata {
  systems : gmap string System;
  contexts : list ref;
  events : list Event;
  onUpdateContexts : bool;
  CargoClass : Cargo;
  objects : list Context;
  cargoes : list Cargo;
  trace : list Obs }.

Definition set_systems (f : gmap string System -> gmap string System) (st : Automata) :=
  mkAutomata (f (systems st)) (contexts st) (events st) (onUpdateContexts st)
             (CargoClass st) (objects st) (cargoes st) (trace st).
Definition set_contexts (f : list ref -> list ref) (st : Automata) :=
  mkAutomata (systems st) (f (contexts st)) (events st) (onUpdateContexts st)
             (CargoClass st) (objects st) (cargoes st) (trace st).
Definition set_events (f : list Event -> list Event) (st : Automata) :=
  mkAutomata (systems st) (contexts st) (f (events st)) (onUpdateContexts st)
             (CargoClass st) (objects st) (cargoes st) (trace st).
Definition set_objects (f : list Context -> list Context) (st : Automata) :=
  mkAutomata (systems st) (contexts st) (events st) (onUpdateContexts st)
             (CargoClass st) (f (objects st)) (cargoes st) (trace st).
Definition set_cargoes (f : list Cargo -> list Cargo) (st : Automata) :=
  mkAutomata (systems st) (contexts st) (events st) (onUpdateContexts st)
             (CargoClass st) (objects st) (f (cargoes st)) (trace st).
Definition observe (o : Obs) (st : Automata) :=
  mkAutomata (systems st) (contexts st) (events st) (onUpdateContexts st)
             (CargoClass st) (objects st) (cargoes st) (trace st ++ [o]).

(** ** The evaluation monad *)

Inductive Res (A : Type) :=
  | Ok (a : A) (st : Automata)
  | Throw (e : Error) (st : Automata).
Arguments Ok {A} a st.
Arguments Throw {A} e st.

Definition M (A : Type) : Type := Automata -> Res A.

Definition ret {A} (a : A) : M A := fun st => Ok a st.

Definition bind {A B} (m : M A) (k : A -> M B) : M B :=
  fun st => match m st with
            | Ok a st' => k a st'
            | Throw e st' => Throw e st'
            end.

Definition throw {A} (e : Error) : M A := fun st => Throw e st.

Definition gets {A} (f : Automata -> A) : M A := fun st => Ok (f st) st.

Definition modify (f : Automata -> Automata) : M unit := fun st => Ok tt (f st).

(** The state a computation leaves behind, however it ends. *)
Definition res_state {A} (r : Res A) : Automata :=
  match r with
  | Ok _ st => st
  | Throw _ st => st
  end.

Notation "'let*' x ':=' m 'in' k" := (bind m (fun x => k))
  (at level 10, x name, m at level 100, k at level 200, only parsing).

(** [a.forEach(f)] for a monadic [f]. *)
Fixpoint forEach {A} (f : A -> M unit) (a : list A) : M unit :=
  match a with
  | [] => ret tt
  | x :: a' => let* _ := f x in forEach f a'
  end.

(** ** The stores *)

(** Reading through a reference; a reference that denotes no object cannot
    arise from the allocations below. *)
Definition deref (context : ref) : M Context :=
  fun st => match objects st !! context with
            | Some c => Ok c st
            | None => Throw InvalidRef st
            end.

Definition readCargo (cargo : ref) : M Cargo :=
  fun st => match cargoes st !! cargo with
            | Some v => Ok v st
            | None => Throw InvalidRef st
            end.

(** [new this.CargoClass()] *)
Definition newCargo : M ref :=
  fun st => Ok (length (cargoes st)) (set_cargoes (fun h => h ++ [CargoClass st]) st).

(** An object literal [{ system, currentState, cargo }]. *)
Definition newContext (c : Context) : M ref :=
  fun st => Ok (length (objects st)) (set_objects (fun h => h ++ [c]) st).

(** The stack as a handler reads it. *)
Definition view (st : Automata) : list Context :=
  omap (fun context => objects st !! context) (contexts st).

(** [this.systems[systemName]], about to be indexed: a TypeError when the
    system is not registered. *)
Definition systemOf (systemName : string) : M System :=
  fun st => match systems st !! systemName with
            | Some sys => Ok sys st
            | None => Throw TypeError st
            end.

(** [sys[stateName]], about to be dereferenced: a TypeError when the state
    is not defined. *)
Definition stateOf (sys : System) (stateName : string) : M State :=
  match sys !! stateName with
  | Some state => ret state
  | None => throw TypeError
  end.

(** ** Operations of [class Automata] *)

(** [getCargoStack()] *)
Definition getCargoStack (st : Automata) : list ref :=
  cargo <$> view st.

(** [_onUpdateContexts()] *)
Definition _onUpdateContexts : M unit :=
  let* hook := gets onUpdateContexts in
  if hook then modify (observe ObsUpdateContexts) else ret tt.

(** [pushEvent(event?)]: [this.events.push(event || {})] *)
Definition pushEvent (event : option Event) : M unit :=
  modify (set_events (fun q => q ++ [default emptyEvent event])).

(** [registerSystem(name, system)] *)
Definition registerSystem (name : string) (sys : System) : M unit :=
  modify (set_systems (fun s => <[name := sys]> s)).

(** [getContext(systemName)] *)
Definition getContext (systemName : string) (st : Automata) : option ref :=
  snd <$> list_find
    (fun context => (system <$> objects st !! context) = Some systemName)
    (contexts st).

(** [isRecentSystem(systemName)], on the stack as a handler reads it. *)
Definition isRecentSystem (systemName : string) (stack : list Context) : bool :=
  match last stack with
  | Some c => String.eqb systemName (system c)
  | None => false
  end.

(** What a call into caller-supplied code leaves behind: the cargo it was
    handed as it is now, the events it pushed, and its completion. *)
Definition perform {A} (cargo : ref) (e : Effect A) : M A :=
  let* _ := modify (set_cargoes (fun h => <[cargo := eff_cargo e]> h)) in
  let* _ := forEach pushEvent (eff_pushed e) in
  match eff_completion e with
  | Returns a => ret a
  | Throws => throw HandlerError
  end.

(** [State.run(event, cargo)]: [return this.handler(event, cargo)].  The
    first four arguments only say where the call comes from. *)
Definition run (site : Site) (context : ref) (systemName stateName : string)
    (state : State) (event : Event) (cargo : ref) : M (option string) :=
  let* v := readCargo cargo in
  let* stack := gets contexts in
  let* seen := gets view in
  let* _ := modify (observe (ObsRun site context systemName stateName event stack)) in
  perform cargo (handler state event v seen).

(** [if (onTransition) { onTransition(to, from, cargo); }] *)
Definition callOnTransition (onTransition : option OnTransitionHandler)
    (to from : string) (cargo : ref) : M unit :=
  match onTransition with
  | Some f =>
      let* v := readCargo cargo in
      let* _ := modify (observe (ObsOnTransition to from cargo)) in
      perform cargo (f to from v)
  | None => ret tt
  end.

(** [pushContext(systemName)] *)
Definition pushContext (systemName : string) : M unit :=
  let* cargo := newCargo in
  let* context := newContext (mkContext systemName "@start" cargo) in
  let* _ := modify (set_contexts (fun cs => cs ++ [context])) in
  let* sys := systemOf systemName in
  let* start := stateOf sys "@start" in
  let* _ := callOnTransition (onTransitionHandler start) systemName "@start" cargo in
  let* _ := _onUpdateContexts in
  pushEvent (Some (mkEvent (Some "automata") (Some "entered")
                           (Some (DataSystemName systemName)))).

(** [_finalizeContext(context)] *)
Definition _finalizeContext (context : ref) : M unit :=
  let* c := deref context in
  let* sys := systemOf (system c) in
  match sys !! "@finalize" with
  | Some finalizeState =>
      let finializeEvent :=
        mkEvent (Some "automata") (Some "finalize") (Some (DataContext context)) in
      let* _ := run AtFinalize context (system c) "@finalize"
                    finalizeState finializeEvent (cargo c) in
      ret tt
  | None => ret tt
  end.

(** [a.map(async (x) => { await f(x); })]: every call is made, in the order
    of the array, whether or not an earlier one failed; the result says
    whether one did. *)
Fixpoint settleAll (f : ref -> M unit) (a : list ref) (st : Automata)
    : option Error * Automata :=
  match a with
  | [] => (None, st)
  | x :: a' =>
      match f x st with
      | Ok _ st1 => settleAll f a' st1
      | Throw e st1 => (Some e, snd (settleAll f a' st1))
      end
  end.

(** [await Promise.all(a.map(...))]: throws when one of the calls failed
    (which failure it reports, when several did, is not modelled: here the
    first in the order of the array). *)
Definition promiseAll (f : ref -> M unit) (a : list ref) : M unit :=
  fun st => match settleAll f a st with
            | (None, st') => Ok tt st'
            | (Some e, st') => Throw e st'
            end.

(** [_removeDescendants(context, withSelf = false)] *)
Definition _removeDescendants (context : ref) (withSelf : bool) : M unit :=
  let* cs := gets contexts in
  let idx := findIndex cs context in
  let newContexts := sliceTo cs (idx + (if withSelf then 0 else 1)) in
  let* _ := promiseAll _finalizeContext
              (sliceFrom cs (idx + (if withSelf then 0 else 1))) in
  modify (set_contexts (fun _ => newContexts)).

(** [this.contexts.pop()] *)
Definition popContext : M (option ref) :=
  let* cs := gets contexts in
  let* _ := modify (set_contexts (fun cs => removelast cs)) in
  ret (last cs).

(** [_transitionTo(stateName, context)].  Each branch of the [if] chain
    yields [Some b] where the source has [return b] and [None] where it
    falls through to the two statements after the chain. *)
Definition _transitionTo (stateName : string) (context : ref) : M bool :=
  let* early :=
    if String.eqb stateName "@end" then
      let* c := deref context in
      let* sys := systemOf (system c) in
      let* _ :=
        match sys !! "@end" with
        | Some endState =>
            let finializeEvent :=
              mkEvent (Some "automata") (Some "end") (Some (DataContext context)) in
            let* _ := run AtEnd context (system c) "@end"
                          endState finializeEvent (cargo c) in
            ret tt
        | None => ret tt
        end in
      let* popped := popContext in
      match popped with
      | None => ret (Some false)
      | Some self =>
          let* _ := _finalizeContext self in
          let* _ := _onUpdateContexts in
          ret (Some true)
      end
    else if String.eqb stateName "@current" then
      let* _ := _removeDescendants context false in
      let* c := deref context in
      let* sys := systemOf (system c) in
      let* state := stateOf sys (currentState c) in
      let* _ := callOnTransition (onTransitionHandler state)
                  (currentState c) (currentState c) (cargo c) in
      let* _ := _onUpdateContexts in
      ret None
    else
      let* c := deref context in
      if String.eqb stateName (currentState c) then ret (Some false)
      else if startsWithHash stateName then
        let systemName := slice1 stateName in
        let* cs := gets contexts in
        let idx := findIndex cs context in
        let* target :=
          if String.eqb systemName "@current" then ret (Some (system c))
          else
            match at_index cs (idx + 1) with
            | Some child =>
                let* ch := deref child in
                if String.eqb systemName (system ch) then ret None
                else ret (Some systemName)
            | None => ret (Some systemName)
            end in
        match target with
        | None => ret (Some false)
        | Some systemName =>
            let* _ := _removeDescendants context false in
            let* _ := pushContext systemName in
            ret None
        end
      else
        let* _ := _removeDescendants context false in
        let* c := deref context in
        let* sys := systemOf (system c) in
        let* state := stateOf sys stateName in
        let* _ := callOnTransition (onTransitionHandler state)
                    stateName (currentState c) (cargo c) in
        let* _ := modify (set_objects
                    (alter (fun o => mkContext (system o) stateName (cargo o)) context)) in
        ret None in
  match early with
  | Some b => ret b
  | None =>
      let* _ := _onUpdateContexts in
      ret true
  end.

(** [x == s] for an optional string field [x]. *)
Definition fieldIs (x : option string) (s : string) : bool :=
  match x with
  | Some v => String.eqb v s
  | None => false
  end.

(** [event.data.systemName != system]: a TypeError when [data] is absent;
    a [data] without that property differs from every system name. *)
Definition otherSystem (event : Event) (systemName : string) : M bool :=
  match data event with
  | None => throw TypeError
  | Some (DataSystemName s) => ret (negb (String.eqb s systemName))
  | Some _ => ret true
  end.

(** The [for (const context of this.contexts)] loop of [do], on the rest
    [cs] of the array.  The array is not changed while the loop goes on: a
    handler does not touch it and a transition that changes it ends the
    loop. *)
Fixpoint do_loop (event : Event) (cs : list ref) : M unit :=
  match cs with
  | [] => ret tt
  | context :: rest =>
      let* c := deref context in
      let* sys := systemOf (system c) in
      let state := sys !! currentState c in
      let* skip :=
        if fieldIs (type event) "automata" && fieldIs (name event) "transition"
        then otherSystem event (system c)
        else ret false in
      if skip then do_loop event rest
      else
        let* state := match state with
                      | Some s => ret s
                      | None => throw TypeError
                      end in
        let* nextStateName :=
          run AtDispatch context (system c) (currentState c) state event (cargo c) in
        match nextStateName with
        | None | Some EmptyString => do_loop event rest
        | Some nextStateName =>
            let* moved := _transitionTo nextStateName context in
            if moved then modify (observe ObsLatestTransition)
            else do_loop event rest
        end
  end.

(** What [do] does once the generator has yielded [event]. *)
Definition dispatch (event : Event) : M bool :=
  let* _ := modify (observe (ObsYield event)) in
  let* cs := gets contexts in
  let* _ := do_loop event cs in
  let* cs' := gets contexts in
  ret (0 <? length cs')%nat.

(** [do()].  The generator behind [_eventIter] shifts the head of the queue
    and yields it; on an empty queue it polls again, so the call has no
    result until an event is pushed: [None]. *)
Definition do (st : Automata) : option (Res bool) :=
  match events st with
  | [] => None
  | event :: rest => Some (dispatch event (set_events (fun _ => rest) st))
  end.

End Engine.

Arguments mkEffect {Cargo A} _ _ _.
Arguments eff_cargo {Cargo A} _.
Arguments eff_pushed {Cargo A} _.
Arguments eff_completion {Cargo A} _.
Arguments mkState {Cargo} _ _.
Arguments handler {Cargo} _.
Arguments onTransitionHandler {Cargo} _.
Arguments mkAutomata {Cargo} _ _ _ _ _ _ _ _.
Arguments systems {Cargo} _.
Arguments contexts {Cargo} _.
Arguments events {Cargo} _.
Arguments onUpdateContexts {Cargo} _.
Arguments CargoClass {Cargo} _.
Arguments objects {Cargo} _.
Arguments cargoes {Cargo} _.
Arguments trace {Cargo} _.
Arguments set_systems {Cargo} _ _.
Arguments set_contexts {Cargo} _ _.
Arguments set_events {Cargo} _ _.
Arguments set_objects {Cargo} _ _.
Arguments set_cargoes {Cargo} _ _.
Arguments observe {Cargo} _ _.
Arguments Ok {Cargo A} _ _.
Arguments Throw {Cargo A} _ _.
Arguments ret {Cargo A} _ _.
Arguments bind {Cargo A B} _ _ _.
Arguments throw {Cargo A} _ _.
Arguments gets {Cargo A} _ _.
Arguments modify {Cargo} _ _.
Arguments res_state {Cargo A} _.
Arguments forEach {Cargo A} _ _ _.
Arguments deref {Cargo} _ _.
Arguments readCargo {Cargo} _ _.
Arguments newCargo {Cargo} _.
Arguments newContext {Cargo} _ _.
Arguments view {Cargo} _.
Arguments systemOf {Cargo} _ _.
Arguments stateOf {Cargo} _ _ _.
Arguments getCargoStack {Cargo} _.
Arguments _onUpdateContexts {Cargo} _.
Arguments pushEvent {Cargo} _ _.
Arguments registerSystem {Cargo} _ _ _.
Arguments getContext {Cargo} _ _.
Arguments perform {Cargo A} _ _ _.
Arguments run {Cargo} _ _ _ _ _ _ _ _.
Arguments callOnTransition {Cargo} _ _ _ _ _.
Arguments pushContext {Cargo} _ _.
Arguments _finalizeContext {Cargo} _ _.
Arguments settleAll {Cargo} _ _ _.
Arguments promiseAll {Cargo} _ _ _.
Arguments _removeDescendants {Cargo} _ _ _.
Arguments popContext {Cargo} _.
Arguments _transitionTo {Cargo} _ _ _.
Arguments otherSystem {Cargo} _ _ _.
Arguments do_loop {Cargo} _ _ _.
Arguments dispatch {Cargo} _ _.
Arguments do {Cargo} _.

(** ** Reading the trace and the stores *)

(** What the transition engine may do to the outside: everything but the
    dispatch of a queued event and the stamp of [do]. *)
Definition inner (o : Obs) : Prop :=
  match o with
  | ObsRun AtEnd _ _ _ _ _ => True
  | ObsRun AtFinalize _ _ _ _ _ => True
  | ObsOnTransition _ _ _ => True
  | ObsUpdateContexts => True
  | _ => False
  end.

(** The tokens that [_transitionTo] takes for itself. *)
Definition reserved (s : string) : Prop :=
  s = "@end" \/ s = "@current" \/ startsWithHash s = true.

Section Reading.

Context {Cargo : Type}.

(** A computation relates the state it starts in to the state it leaves
    behind, whether it returns or throws. *)
Definition preserves {A} (R : relation (Automata Cargo)) (m : M Cargo A) : Prop :=
  forall st, R st (res_state (m st)).

(** The state after a call into caller-supplied code that was handed
    [cargo] and did [e]. *)
Definition performed {A} (cargo : ref) (e : Effect Cargo A) (st : Automata Cargo)
    : Automata Cargo :=
  set_events (fun q => q ++ (default emptyEvent <$> eff_pushed e))
    (set_cargoes (fun h => <[cargo := eff_cargo e]> h) st).

(** A call into caller-supplied code returns or throws as the code did. *)
Definition completes {A} (e : Effect Cargo A) (st : Automata Cargo) : Res Cargo A :=
  match eff_completion e with
  | Returns a => Ok a st
  | Throws => Throw HandlerError st
  end.

(** The hook, when one is installed, as it shows in the trace. *)
Definition hooked (st : Automata Cargo) : list Obs :=
  if onUpdateContexts st then [ObsUpdateContexts] else [].

(** [{ type: 'automata', name: 'entered', data: { systemName } }] *)
Definition entered (systemName : string) : Event :=
  mkEvent (Some "automata") (Some "entered") (Some (DataSystemName systemName)).

(** [{ type: 'automata', name: 'end', data: { context } }] *)
Definition endEvent (context : ref) : Event :=
  mkEvent (Some "automata") (Some "end") (Some (DataContext context)).

(** [{ type: 'automata', name: 'finalize', data: { context } }] *)
Definition finalizeEvent (context : ref) : Event :=
  mkEvent (Some "automata") (Some "finalize") (Some (DataContext context)).

(** The call of the [@finalize] handler of [context], when its system has
    one, as it shows in the trace: the stack it records is the whole stack
    of [st]. *)
Definition finalizeRun (st : Automata Cargo) (context : ref) : list Obs :=
  match objects st !! context with
  | Some c =>
      match systems st !! system c with
      | Some sys =>
          match sys !! "@finalize", cargoes st !! cargo c with
          | Some _, Some _ =>
              [ObsRun AtFinalize context (system c) "@finalize"
                      (finalizeEvent context) (contexts st)]
          | _, _ => []
          end
      | None => []
      end
  | None => []
  end.

(** A reference to a context object of a registered system whose cargo
    exists. *)
Definition live (st : Automata Cargo) (context : ref) : Prop :=
  exists c sys,
    objects st !! context = Some c /\
    systems st !! system c = Some sys /\
    is_Some (cargoes st !! cargo c).

(** No [@finalize] handler of a registered system throws. *)
Definition finalizers_return (st : Automata Cargo) : Prop :=
  forall systemName sys state event v stack,
    systems st !! systemName = Some sys ->
    sys !! "@finalize" = Some state ->
    exists x, eff_completion (handler state event v stack) = Returns x.

(** The values a computation can return. *)
Definition returns_only {A} (P : A -> Prop) (m : M Cargo A) : Prop :=
  forall st a st', m st = Ok a st' -> P a.

(** What a call into caller-supplied code leaves alone. *)
Record untouched (st st' : Automata Cargo) : Prop := mkUntouched {
  untouched_systems : systems st' = systems st;
  untouched_contexts : contexts st' = contexts st;
  untouched_objects : objects st' = objects st;
  untouched_hook : onUpdateContexts st' = onUpdateContexts st;
  untouched_class : CargoClass st' = CargoClass st;
  untouched_cargoes : length (cargoes st') = length (cargoes st) }.

(** A branch of [_transitionTo] that ends in [return false] has touched
    nothing but what a handler may touch. *)
Definition rejects (m : M Cargo (option bool)) : Prop :=
  forall st a st', m st = Ok a st' -> a = Some false -> untouched st st'.

(** The engine does not touch its own configuration. *)
Record static (st st' : Automata Cargo) : Prop := mkStatic {
  static_systems : systems st' = systems st;
  static_hook : onUpdateContexts st' = onUpdateContexts st;
  static_class : CargoClass st' = CargoClass st }.

(** The trace grows, and by nothing but what the transition engine does. *)
Definition quiet (st st' : Automata Cargo) : Prop :=
  exists t, trace st' = trace st ++ t /\ Forall inner t.

(** The events the generator has yielded, oldest first. *)
Definition yields (t : list Obs) : list Event :=
  omap (fun o => match o with ObsYield event => Some event | _ => None end) t.

(** The contexts a queued event was offered to, in the order of the calls. *)
Definition dispatched (t : list Obs) : list ref :=
  omap (fun o => match o with
                 | ObsRun AtDispatch context _ _ _ _ => Some context
                 | _ => None
                 end) t.

(** How often [do] stamped a transition. *)
Definition stamps (t : list Obs) : nat :=
  length (omap (fun o => match o with ObsLatestTransition => Some tt | _ => None end) t).

(** The filter of [do]: the event is a targeted transition event for some
    other system than [systemName]. *)
Definition targetedElsewhere (event : Event) (systemName : string) : bool :=
  fieldIs (type event) "automata" && fieldIs (name event) "transition" &&
  match data event with
  | Some (DataSystemName s) => negb (String.eqb s systemName)
  | _ => true
  end.

(** The contexts that [do] does not skip for [event]. *)
Definition eligible (st : Automata Cargo) (event : Event) (context : ref) : bool :=
  match objects st !! context with
  | Some c => negb (targetedElsewhere event (system c))
  | None => false
  end.

(** An entry of the trace of one step: no second yield, and an offer is an
    offer of [event] made while the stack is [stack]. *)
Definition offer_of (event : Event) (stack : list ref) (o : Obs) : Prop :=
  match o with
  | ObsYield _ => False
  | ObsRun AtDispatch _ _ _ event' stack' => event' = event /\ stack' = stack
  | _ => True
  end.

(** The trace [t] of the loop of [do] over the contexts [cs]: the event was
    offered, in the order of [cs], to the contexts among the first [k] that
    the filter lets through; a transition was stamped at most once, and
    then nothing came after it; and a loop that came to its end without a
    stamp has gone through all of [cs]. *)
Definition loop_trace (st : Automata Cargo) (event : Event) (cs : list ref)
    (t : list Obs) (finished : bool) : Prop :=
  exists k,
    dispatched t = filter (fun context => eligible st event context = true) (take k cs) /\
    Forall (offer_of event (contexts st)) t /\
    (stamps t <= 1)%nat /\
    (stamps t = 1%nat -> last t = Some ObsLatestTransition) /\
    (finished = true -> stamps t = 0%nat -> (length cs <= k)%nat).

(** Whether a computation returned. *)
Definition returned {A} (r : Res Cargo A) : bool :=
  match r with
  | Ok _ _ => true
  | Throw _ _ => false
  end.

(** Every event that ever entered the queue: those yielded, then those
    that wait. *)
Definition history (st : Automata Cargo) : list Event :=
  yields (trace st) ++ events st.

(** Events enter the history at its end and never leave it. *)
Definition fifo (st st' : Automata Cargo) : Prop :=
  history st `prefix_of` history st'.

(** No state ever held by a context is a reserved token. *)
Definition states_ordinary (st : Automata Cargo) : Prop :=
  forall context c, objects st !! context = Some c -> ~ reserved (currentState c).

Definition keeps_ordinary (st st' : Automata Cargo) : Prop :=
  states_ordinary st -> states_ordinary st'.

(** A state name that is none of the names and tokens the specification
    reserves: [@start], [@end], [@finalize], [@current] and the [#]
    prefix. *)
Definition ordinary_name (s : string) : Prop :=
  s <> "@start" /\ s <> "@finalize" /\ ~ reserved s.

(** Every context is in state [@start] or in a state with an ordinary
    name. *)
Definition start_or_ordinary (st : Automata Cargo) : Prop :=
  forall context c,
    objects st !! context = Some c ->
    currentState c = "@start" \/ ordinary_name (currentState c).

(** The trace only grows. *)
Definition grows (st st' : Automata Cargo) : Prop :=
  trace st `prefix_of` trace st'.

(** [n] calls of [do()], each awaited before the next and whatever its
    outcome; a call on an empty queue has no outcome, and nothing follows
    it. *)
Fixpoint calls (n : nat) (st : Automata Cargo) : Automata Cargo :=
  match n with
  | O => st
  | S n' =>
      match do st with
      | Some r => calls n' (res_state r)
      | None => st
      end
  end.

(** The states of an automata: it starts without contexts, and then the
    operations of the class are applied to it, each leaving the state it
    leaves whether it returns or throws. *)
Inductive reachable : Automata Cargo -> Prop :=
  | reach_new st :
      objects st = [] -> contexts st = [] -> reachable st
  | reach_registerSystem st name sys :
      reachable st -> reachable (res_state (registerSystem name sys st))
  | reach_pushEvent st event :
      reachable st -> reachable (res_state (pushEvent event st))
  | reach_pushContext st systemName :
      reachable st -> reachable (res_state (pushContext systemName st))
  | reach_finalizeContext st context :
      reachable st -> reachable (res_state (_finalizeContext context st))
  | reach_removeDescendants st context withSelf :
      reachable st -> reachable (res_state (_removeDescendants context withSelf st))
  | reach_transitionTo st stateName context :
      reachable st -> reachable (res_state (_transitionTo stateName context st))
  | reach_do st r :
      reachable st -> do st = Some r -> reachable (res_state r).

End Reading.

(** ** The README's example *)

Module Readme.

(** [class Cargo { flag: boolean | null = false; }] *)
Definition Cargo : Type := bool.

Definition leaves (v : Cargo) (s : option string) : Effect Cargo (option string) :=
  mkEffect v [] (Returns s).

Definition main : gmap string (State Cargo) :=
  {[ "@start" := mkState (fun _ v _ => leaves v (Some "state1")) None;
     "state1" := mkState (fun event v stack =>
        if negb (isRecentSystem "main" stack) then leaves v None
        else if fieldIs (type event) "automata" && fieldIs (name event) "leaved"
             then leaves true (Some "state2")
             else leaves v (Some "#sub")) None;
     "state2" := mkState (fun _ v _ => leaves v (Some "@end")) None ]}.

Definition sub : gmap string (State Cargo) :=
  {[ "@start" := mkState (fun _ v _ => leaves v (Some "sub-state")) None;
     "sub-state" := mkState (fun _ v _ => leaves v (Some "@end")) None;
     "@end" := mkState (fun _ v _ =>
        mkEffect v [Some (mkEvent (Some "automata") (Some "leaved") (Some DataOther))]
                 (Returns None)) None ]}.

(** [new Automata(Cargo)], with both systems registered. *)
Definition automata : Automata Cargo :=
  mkAutomata {[ "main" := main; "sub" := sub ]} [] [] false false [] [] [].

End Readme.

(** ** A system with observers and a finalizer *)

Module Demo.

(** A cargo that counts. *)
Definition Cargo : Type := nat.

Definition done : Event := mkEvent (Some "job") (Some "done") None.

Definition job : gmap string (State Cargo) :=
  {[ "@start" :=
       mkState (fun _ v _ => mkEffect v [] (Returns (Some "work")))
               (Some (fun _ _ v => mkEffect (S v) [] (Returns tt)));
     "work" :=
       mkState (fun event v _ =>
                  mkEffect v []
                    (Returns (if fieldIs (name event) "stop" then Some "@end" else None)))
               (Some (fun _ _ v => mkEffect (S v) [None] (Returns tt)));
     "@end" :=
       mkState (fun _ v _ => mkEffect (S v) [Some done] (Returns (Some "ignored"))) None;
     "@finalize" :=
       mkState (fun _ v _ => mkEffect 0 [] (Returns None)) None ]}.

(** A system whose [@finalize] handler throws. *)
Definition fragile : gmap string (State Cargo) :=
  {[ "@start" := mkState (fun _ v _ => mkEffect v [] (Returns None)) None;
     "@finalize" := mkState (fun _ v _ => mkEffect (S v) [] Throws) None ]}.

(** [new Automata(Cargo)] with [job] registered and a hook installed. *)
Definition automata : Automata Cargo :=
  mkAutomata {[ "job" := job ]} [] [] true 7 [] [] [].

(** Two jobs at work, one in the other. *)
Definition nested : Automata Cargo :=
  mkAutomata {[ "job" := job ]} [0; 1] [] true 7
             [mkContext "job" "work" 0; mkContext "job" "work" 1] [3; 5] [].

(** A job, a fragile system in it, and a job in that. *)
Definition brittle : Automata Cargo :=
  mkAutomata {[ "job" := job; "fragile" := fragile ]} [0; 1; 2] [] false 7
             [mkContext "job" "work" 0; mkContext "fragile" "@start" 1;
              mkContext "job" "work" 2]
             [1; 2; 3] [].

(** A system that goes from [@start] to the state named [@finalize]. *)
Definition hasty : gmap string (State Cargo) :=
  {[ "@start" := mkState (fun _ v _ => mkEffect v [] (Returns (Some "@finalize"))) None;
     "@finalize" := mkState (fun _ v _ => mkEffect v [] (Returns None)) None ]}.

(** [pushContext('hasty')] on a new automata, and one call of [do]. *)
Definition hastened : Automata Cargo :=
  calls 1 (res_state (pushContext "hasty"
             (mkAutomata {[ "hasty" := hasty ]} [] [] false 0 [] [] []))).

(** A targeted transition event that lacks its [data]. *)
Definition untargeted : Event := mkEvent (Some "automata") (Some "transition") None.

End Demo.

(** ** The driver, and what the states of an automata have in common *)

Section Driver.

Context {Cargo : Type}.

(** [start(time)]: [while (await this.do()) { await wait(time); }].  The
    waits take time and nothing else; [fuel] bounds the number of turns of
    the loop, and [None] is a loop that has not come to an end within it,
    be it that [do] waits for an event nobody pushes. *)
Fixpoint start (fuel : nat) (st : Automata Cargo) : option (Res Cargo unit) :=
  match fuel with
  | O => None
  | S fuel' =>
      match do st with
      | None => None
      | Some (Ok true st') => start fuel' st'
      | Some (Ok false st') => Some (Ok tt st')
      | Some (Throw e st') => Some (Throw e st')
      end
  end.

(** The references of a state are sound: every context of the stack is an
    object, no context is on the stack twice, the cargo of every context
    is an object, and no two contexts have the same cargo. *)
Record well_formed (st : Automata Cargo) : Prop := mkWellFormed {
  wf_stack : Forall (fun context => (context < length (objects st))%nat) (contexts st);
  wf_distinct : NoDup (contexts st);
  wf_cargo : forall context c,
    objects st !! context = Some c -> (cargo c < length (cargoes st))%nat;
  wf_owned : forall r1 r2 c1 c2,
    objects st !! r1 = Some c1 -> objects st !! r2 = Some c2 ->
    cargo c1 = cargo c2 -> r1 = r2 }.

Definition keeps_well_formed (st st' : Automata Cargo) : Prop :=
  well_formed st -> well_formed st'.

(** A context object stays, and stays with its system and its cargo. *)
Definition evolves (st st' : Automata Cargo) : Prop :=
  forall context c,
    objects st !! context = Some c ->
    exists c', objects st' !! context = Some c' /\
               system c' = system c /\ cargo c' = cargo c.



(** The system a reference stands for, if it stands for a context. *)
Definition systemAt (st : Automata Cargo) (context : ref) : option string :=
  system <$> objects st !! context.

End Driver.

(** ** More states to look at *)

Module Cases.

Definition Cargo : Type := nat.

(** A system without a [@start] state. *)
Definition headless : gmap string (State Cargo) :=
  {[ "work" := mkState (fun _ v _ => mkEffect v [] (Returns None)) None ]}.

(** A system that enters [job] from [@start] and never ends. *)
Definition parent : gmap string (State Cargo) :=
  {[ "@start" := mkState (fun _ v _ => mkEffect v [] (Returns (Some "#job"))) None;
     "idle" := mkState (fun _ v _ => mkEffect v [] (Returns None)) None ]}.

(** A system that ends as soon as it is offered an event. *)
Definition brief : gmap string (State Cargo) :=
  {[ "@start" := mkState (fun _ v _ => mkEffect v [] (Returns (Some "@end"))) None ]}.

(** A system that answers with the empty string. *)
Definition mute : gmap string (State Cargo) :=
  {[ "@start" := mkState (fun _ v _ => mkEffect v [] (Returns (Some ""))) None ]}.

(** A system whose [@start] handler counts, pushes an event and throws. *)
Definition faulty : gmap string (State Cargo) :=
  {[ "@start" := mkState (fun _ v _ => mkEffect (S v) [Some Demo.done] Throws) None ]}.

Definition registry : gmap string (gmap string (State Cargo)) :=
  {[ "job" := Demo.job; "headless" := headless; "parent" := parent;
     "brief" := brief; "mute" := mute; "faulty" := faulty ]}.

(** [new Automata(Cargo)] with the systems registered and a hook. *)
Definition automata : Automata Cargo :=
  mkAutomata registry [] [] true 7 [] [] [].

(** A job with a fragile system in it. *)
Definition shaky : Automata Cargo :=
  mkAutomata {[ "job" := Demo.job; "fragile" := Demo.fragile ]} [0; 1] [] true 7
             [mkContext "job" "work" 0; mkContext "fragile" "@start" 1] [3; 5] [].

(** A job that is not on the stack any more, beside a job with a parent
    in it. *)
Definition orphaned : Automata Cargo :=
  mkAutomata registry [1; 2] [] true 7
             [mkContext "job" "work" 0; mkContext "job" "work" 1;
              mkContext "parent" "idle" 2] [3; 5; 6] [].

(** A job that has left, the last of the stack. *)
Definition retired : Automata Cargo :=
  mkAutomata registry [] [] true 7 [mkContext "job" "work" 0] [3] [].



(** [pushContext(name)] on the new automata. *)
Definition pushed (name : string) : Automata Cargo :=
  res_state (pushContext name automata).

End Cases.


(** * Properties *)

(** ** Evaluation *)

Section Evaluation.

Context {Cargo : Type}.
Implicit Types (st : Automata Cargo).

Lemma bind_Ok {A B} (m : M Cargo A) (k : A -> M Cargo B) st a st' :
  m st = Ok a st' -> bind m k st = k a st'.
Proof. unfold bind. now intros ->. Qed.

Lemma bind_Throw {A B} (m : M Cargo A) (k : A -> M Cargo B) st e st' :
  m st = Throw e st' -> bind m k st = Throw e st'.
Proof. unfold bind. now intros ->. Qed.

Lemma bind_inv_Ok {A B} (m : M Cargo A) (k : A -> M Cargo B) st b st' :
  bind m k st = Ok b st' ->
  exists a st1, m st = Ok a st1 /\ k a st1 = Ok b st'.
Proof. unfold bind. destruct (m st) as [a st1|]; [eauto | discriminate]. Qed.

Lemma bind_assoc {A B C} (m : M Cargo A) (k1 : A -> M Cargo B) (k2 : B -> M Cargo C) st :
  bind (bind m k1) k2 st = bind m (fun a => bind (k1 a) k2) st.
Proof. unfold bind. now destruct (m st). Qed.

Lemma res_state_bind {A B} (m : M Cargo A) (k : A -> M Cargo B) st :
  res_state (bind m k st) =
  match m st with
  | Ok a st' => res_state (k a st')
  | Throw _ st' => st'
  end.
Proof. unfold bind. now destruct (m st). Qed.

Section Preserves.

Variable R : relation (Automata Cargo).
Hypothesis R_pre : PreOrder R.

Lemma preserves_ret {A} (a : A) : preserves R (ret a).
Proof. intros st. cbn. reflexivity. Qed.

Lemma preserves_throw {A} e : preserves R (throw (A:=A) e).
Proof. intros st. cbn. reflexivity. Qed.

Lemma preserves_gets {A} (f : Automata Cargo -> A) : preserves R (gets f).
Proof. intros st. cbn. reflexivity. Qed.

Lemma preserves_modify f : (forall st, R st (f st)) -> preserves R (modify f).
Proof. intros H st. apply H. Qed.

Lemma preserves_bind {A B} (m : M Cargo A) (k : A -> M Cargo B) :
  preserves R m -> (forall a, preserves R (k a)) -> preserves R (bind m k).
Proof.
  intros Hm Hk st. rewrite res_state_bind.
  specialize (Hm st). destruct (m st) as [a st'|e st']; cbn in Hm; [|exact Hm].
  etransitivity; [exact Hm | apply Hk].
Qed.

Lemma preserves_deref context : preserves R (deref context).
Proof. intros st. unfold deref. destruct (_ !! _); cbn; reflexivity. Qed.

Lemma preserves_readCargo cargo : preserves R (readCargo cargo).
Proof. intros st. unfold readCargo. destruct (_ !! _); cbn; reflexivity. Qed.

Lemma preserves_systemOf systemName : preserves R (systemOf systemName).
Proof. intros st. unfold systemOf. destruct (_ !! _); cbn; reflexivity. Qed.

Lemma preserves_stateOf sys stateName : preserves R (stateOf sys stateName).
Proof. unfold stateOf. destruct (_ !! _); [apply preserves_ret | apply preserves_throw]. Qed.

Lemma preserves_forEach {A} (f : A -> M Cargo unit) a :
  (forall x, preserves R (f x)) -> preserves R (forEach f a).
Proof.
  intros Hf. induction a as [|x a IH]; cbn [forEach].
  - apply preserves_ret.
  - apply preserves_bind; auto.
Qed.

Lemma preserves_settleAll (f : ref -> M Cargo unit) a st :
  (forall x, preserves R (f x)) -> R st (snd (settleAll f a st)).
Proof.
  intros Hf. revert st. induction a as [|x a IH]; intros st; cbn [settleAll].
  - reflexivity.
  - specialize (Hf x st). destruct (f x st) as [[] st1|e st1]; cbn in Hf |- *;
      (etransitivity; [exact Hf | apply IH]).
Qed.

Lemma res_state_promiseAll (f : ref -> M Cargo unit) a st :
  res_state (promiseAll f a st) = snd (settleAll f a st).
Proof. unfold promiseAll. now destruct (settleAll f a st) as [[e|] st']. Qed.

Lemma preserves_promiseAll (f : ref -> M Cargo unit) a :
  (forall x, preserves R (f x)) -> preserves R (promiseAll f a).
Proof. intros Hf st. rewrite res_state_promiseAll. now apply preserves_settleAll. Qed.

End Preserves.

Lemma returns_only_ret {A} (P : A -> Prop) a : P a -> returns_only (Cargo:=Cargo) P (ret a).
Proof. intros Ha st a' st' [= <- _]. exact Ha. Qed.

Lemma returns_only_throw {A} (P : A -> Prop) e : returns_only (Cargo:=Cargo) P (throw e).
Proof. intros st a st' [=]. Qed.

Lemma returns_only_bind {A B} (Q : A -> Prop) (P : B -> Prop)
    (m : M Cargo A) (k : A -> M Cargo B) :
  returns_only Q m -> (forall a, Q a -> returns_only P (k a)) ->
  returns_only P (bind m k).
Proof.
  intros Hm Hk st b st' (a & st1 & H1 & H2)%bind_inv_Ok.
  exact (Hk a (Hm _ _ _ H1) _ _ _ H2).
Qed.

Lemma returns_only_any {A} (m : M Cargo A) : returns_only (fun _ => True) m.
Proof. now intros st a st' _. Qed.

End Evaluation.

Create HintDb pres discriminated.

#[local] Hint Resolve preserves_ret preserves_throw preserves_gets preserves_deref
  preserves_readCargo preserves_systemOf preserves_stateOf : pres.

(** One step through the structure of a computation. *)
Ltac pres_step :=
  lazymatch goal with
  | |- preserves _ (bind _ _) => apply preserves_bind; [try typeclasses eauto | | intros ?]
  | |- preserves _ (forEach _ _) => apply preserves_forEach; [try typeclasses eauto | intros ?]
  | |- preserves _ (promiseAll _ _) => apply preserves_promiseAll; [try typeclasses eauto | intros ?]
  | |- preserves _ (modify _) => apply preserves_modify; intros ?
  | |- preserves _ (match ?x with _ => _ end) => destruct x eqn:?
  | |- preserves _ (let _ := _ in _) => cbv zeta
  | |- preserves _ _ => solve [eauto with pres typeclass_instances]
  end.

Ltac pres := repeat pres_step.

(** The same for the values returned, with nothing known of the values in
    between. *)
Ltac returns_step :=
  lazymatch goal with
  | |- returns_only _ (bind _ _) =>
      eapply returns_only_bind; [apply returns_only_any | intros ? _]
  | |- returns_only _ (ret _) => apply returns_only_ret
  | |- returns_only _ (throw _) => apply returns_only_throw
  | |- returns_only _ (match ?x with _ => _ end) => destruct x eqn:?
  | |- returns_only _ (let _ := _ in _) => cbv zeta
  end.


(** ** The footprint of the engine *)

(** A relation between states that every elementary change of the
    transition engine respects is respected by its operations. *)
Section Footprint.

Context {Cargo : Type}.
Variable R : relation (Automata Cargo).
Hypothesis R_pre : PreOrder R.

Hypothesis R_cargo_write : forall cargo v st,
  R st (set_cargoes (fun h => <[cargo := v]> h) st).
Hypothesis R_cargo_new : forall st,
  R st (set_cargoes (fun h => h ++ [CargoClass st]) st).
Hypothesis R_context_new : forall systemName cargo st,
  R st (set_objects (fun h => h ++ [mkContext systemName "@start" cargo]) st).
Hypothesis R_context_state : forall context stateName st,
  ~ reserved stateName ->
  R st (set_objects (alter (fun o => mkContext (system o) stateName (cargo o)) context) st).
Hypothesis R_contexts : forall f st, R st (set_contexts f st).
Hypothesis R_push : forall event st, R st (set_events (fun q => q ++ [event]) st).
Hypothesis R_observe : forall o st, inner o -> R st (observe o st).

Local Hint Resolve R_cargo_write R_cargo_new R_context_new R_contexts R_push : pres.

Lemma footprint_onUpdateContexts : preserves R (@_onUpdateContexts Cargo).
Proof. unfold _onUpdateContexts. pres. now apply R_observe. Qed.

Lemma footprint_pushEvent event : preserves R (pushEvent (Cargo:=Cargo) event).
Proof. unfold pushEvent. pres. apply R_push. Qed.

Local Hint Resolve footprint_onUpdateContexts footprint_pushEvent : pres.

Lemma footprint_perform {A} cargo (e : Effect Cargo A) : preserves R (perform cargo e).
Proof. unfold perform. pres. apply R_cargo_write. Qed.

Local Hint Resolve footprint_perform : pres.

Lemma footprint_run site context systemName stateName state event cargo :
  site <> AtDispatch ->
  preserves R (run (Cargo:=Cargo) site context systemName stateName state event cargo).
Proof. intros Hsite. unfold run. pres. apply R_observe. now destruct site. Qed.

Lemma footprint_callOnTransition onTransition to from cargo :
  preserves R (callOnTransition (Cargo:=Cargo) onTransition to from cargo).
Proof. unfold callOnTransition. pres. now apply R_observe. Qed.

Local Hint Resolve footprint_callOnTransition : pres.

Lemma footprint_newCargo : preserves R (@newCargo Cargo).
Proof. intros st. apply R_cargo_new. Qed.

Lemma footprint_newContext systemName cargo :
  preserves R (newContext (Cargo:=Cargo) (mkContext systemName "@start" cargo)).
Proof. intros st. apply R_context_new. Qed.

Local Hint Resolve footprint_newCargo footprint_newContext : pres.

Lemma footprint_pushContext systemName : preserves R (pushContext (Cargo:=Cargo) systemName).
Proof. unfold pushContext. pres. apply R_contexts. Qed.

Lemma footprint_finalizeContext context : preserves R (_finalizeContext (Cargo:=Cargo) context).
Proof. unfold _finalizeContext. pres. now apply footprint_run. Qed.

Local Hint Resolve footprint_pushContext footprint_finalizeContext : pres.

Lemma footprint_removeDescendants context withSelf :
  preserves R (_removeDescendants (Cargo:=Cargo) context withSelf).
Proof. unfold _removeDescendants. pres. apply R_contexts. Qed.

Lemma footprint_popContext : preserves R (@popContext Cargo).
Proof. unfold popContext. pres. apply R_contexts. Qed.

Local Hint Resolve footprint_removeDescendants footprint_popContext : pres.

Lemma footprint_transitionTo stateName context :
  preserves R (_transitionTo (Cargo:=Cargo) stateName context).
Proof.
  unfold _transitionTo. pres.
  - now apply footprint_run.
  - apply R_context_state.
    intros [-> | [-> | Hhash]]; cbn in *; congruence.
Qed.

(** The loop of [do] besides offers the event and stamps the transition. *)
Section Loop.

Variable event : Event.
Hypothesis R_offer : forall context systemName stateName stack st,
  R st (observe (ObsRun AtDispatch context systemName stateName event stack) st).
Hypothesis R_stamp : forall st, R st (observe ObsLatestTransition st).

Lemma footprint_offer site context systemName stateName state cargo :
  preserves R (run (Cargo:=Cargo) site context systemName stateName state event cargo).
Proof.
  destruct site; [|now apply footprint_run..].
  unfold run. pres. apply R_offer.
Qed.

Lemma footprint_otherSystem systemName :
  preserves R (otherSystem (Cargo:=Cargo) event systemName).
Proof. unfold otherSystem. pres. Qed.

Local Hint Resolve footprint_offer footprint_otherSystem footprint_transitionTo : pres.

Lemma footprint_do_loop cs : preserves R (do_loop (Cargo:=Cargo) event cs).
Proof.
  induction cs as [|context rest IH]; cbn [do_loop]; pres.
  apply R_stamp.
Qed.

End Loop.

End Footprint.

(** ** The footprints used below *)

Section Footprints.

Context {Cargo : Type}.
Implicit Types (st : Automata Cargo).

#[global] Instance static_pre : PreOrder (@static Cargo).
Proof.
  split.
  - now intros st.
  - intros st1 st2 st3 [] []. split; congruence.
Qed.

#[global] Instance quiet_pre : PreOrder (@quiet Cargo).
Proof.
  split.
  - intros st. exists []. now rewrite app_nil_r.
  - intros st1 st2 st3 (t1 & E1 & F1) (t2 & E2 & F2).
    exists (t1 ++ t2). split.
    + now rewrite E2, E1, List.app_assoc.
    + apply Forall_app. now split.
Qed.

#[global] Instance fifo_pre : PreOrder (@fifo Cargo).
Proof.
  split.
  - intros st. unfold fifo. reflexivity.
  - intros st1 st2 st3 H1 H2. unfold fifo in *. now transitivity (history st2).
Qed.

#[global] Instance keeps_ordinary_pre : PreOrder (@keeps_ordinary Cargo).
Proof. split; unfold keeps_ordinary; [intros st | intros st1 st2 st3]; auto. Qed.

Lemma yields_snoc t o :
  yields (t ++ [o]) = yields t ++ match o with ObsYield event => [event] | _ => [] end.
Proof. unfold yields. rewrite omap_app. now destruct o. Qed.

Lemma history_observe o st :
  (forall event, o <> ObsYield event) -> history (observe o st) = history st.
Proof.
  intros Ho. unfold history. cbn. rewrite yields_snoc.
  destruct o; try now rewrite app_nil_r. now destruct (Ho event).
Qed.


Lemma static_do_loop event cs : preserves static (do_loop (Cargo:=Cargo) event cs).
Proof. apply footprint_do_loop; try apply _; now intros. Qed.

Lemma quiet_observe o st : inner o -> quiet st (observe o st).
Proof. intros Ho. exists [o]. split; [reflexivity | now constructor]. Qed.

Lemma quiet_same st st' : trace st' = trace st -> quiet st st'.
Proof. intros E. exists []. now rewrite app_nil_r. Qed.

Lemma quiet_transitionTo stateName context :
  preserves quiet (_transitionTo (Cargo:=Cargo) stateName context).
Proof.
  apply footprint_transitionTo; try apply _;
    try (intros; now apply quiet_same); apply quiet_observe.
Qed.

Lemma fifo_same st st' : history st' = history st -> fifo st st'.
Proof. unfold fifo. now intros ->. Qed.

Lemma fifo_push event st : fifo st (set_events (fun q => q ++ [event]) st).
Proof. unfold fifo, history. cbn. rewrite List.app_assoc. now apply prefix_app_r. Qed.

Lemma fifo_observe o st : (forall event, o <> ObsYield event) -> fifo st (observe o st).
Proof. intros Ho. apply fifo_same. now apply history_observe. Qed.

Lemma fifo_inner o st : inner o -> fifo st (observe o st).
Proof. intros Ho. apply fifo_observe. intros event ->. exact Ho. Qed.

Local Ltac fifo_tac :=
  first [ apply fifo_push | apply fifo_inner
        | intros; now apply fifo_same | intros; now apply fifo_observe ].

Lemma fifo_pushEvent event : preserves fifo (pushEvent (Cargo:=Cargo) event).
Proof. intros st. apply fifo_push. Qed.

Lemma fifo_pushContext systemName : preserves fifo (pushContext (Cargo:=Cargo) systemName).
Proof.
  apply footprint_pushContext; try apply _; fifo_tac.
Qed.

Lemma fifo_transitionTo stateName context :
  preserves fifo (_transitionTo (Cargo:=Cargo) stateName context).
Proof.
  apply footprint_transitionTo; try apply _; fifo_tac.
Qed.

Lemma fifo_do_loop event cs : preserves fifo (do_loop (Cargo:=Cargo) event cs).
Proof.
  apply footprint_do_loop; try apply _; fifo_tac.
Qed.

Lemma ordinary_same st st' : objects st' = objects st -> keeps_ordinary st st'.
Proof. unfold keeps_ordinary, states_ordinary. now intros ->. Qed.

Lemma ordinary_new systemName cargo st :
  keeps_ordinary st (set_objects (fun h => h ++ [mkContext systemName "@start" cargo]) st).
Proof.
  intros H context c. cbn. intros Hc.
  apply lookup_app_Some in Hc as [Hc | [_ Hc]]; [now apply (H context)|].
  apply list_lookup_singleton_Some in Hc as [_ <-]. cbn.
  intros [E | [E | E]]; discriminate.
Qed.

Lemma ordinary_state context stateName st :
  ~ reserved stateName ->
  keeps_ordinary st
    (set_objects (alter (fun o => mkContext (system o) stateName (cargo o)) context) st).
Proof.
  intros Hs H r c. cbn. intros Hc.
  destruct (decide (context = r)) as [->|Hne].
  - rewrite list_lookup_alter_eq in Hc.
    destruct (objects st !! r); [|discriminate]. injection Hc as <-. exact Hs.
  - rewrite list_lookup_alter_ne in Hc by done. now apply (H r).
Qed.

Local Ltac ordinary_tac :=
  first [ apply ordinary_new | apply ordinary_state | intros; now apply ordinary_same ].

Lemma ordinary_pushContext systemName :
  preserves keeps_ordinary (pushContext (Cargo:=Cargo) systemName).
Proof.
  apply footprint_pushContext; try apply _; ordinary_tac.
Qed.

Lemma ordinary_transitionTo stateName context :
  preserves keeps_ordinary (_transitionTo (Cargo:=Cargo) stateName context).
Proof.
  apply footprint_transitionTo; try apply _; ordinary_tac.
Qed.

Lemma ordinary_removeDescendants context withSelf :
  preserves keeps_ordinary (_removeDescendants (Cargo:=Cargo) context withSelf).
Proof.
  apply footprint_removeDescendants; try apply _; ordinary_tac.
Qed.

Lemma ordinary_do_loop event cs :
  preserves keeps_ordinary (do_loop (Cargo:=Cargo) event cs).
Proof.
  apply footprint_do_loop; try apply _; ordinary_tac.
Qed.

Lemma ordinary_finalizeContext context :
  preserves keeps_ordinary (_finalizeContext (Cargo:=Cargo) context).
Proof. apply footprint_finalizeContext; try apply _; ordinary_tac. Qed.

#[global] Instance grows_pre : PreOrder (@grows Cargo).
Proof.
  split.
  - intros st. unfold grows. reflexivity.
  - intros st1 st2 st3 H1 H2. unfold grows in *. now transitivity (trace st2).
Qed.

Lemma grows_same st st' : trace st' = trace st -> grows st st'.
Proof. unfold grows. now intros ->. Qed.

Lemma grows_observe o st : grows st (observe o st).
Proof. unfold grows. cbn. now apply prefix_app_r. Qed.

Local Ltac grows_tac :=
  first [ intros; apply grows_observe | intros; now apply grows_same ].

Lemma grows_transitionTo stateName context :
  preserves grows (_transitionTo (Cargo:=Cargo) stateName context).
Proof. apply footprint_transitionTo; try apply _; grows_tac. Qed.

Lemma grows_do_loop event cs : preserves grows (do_loop (Cargo:=Cargo) event cs).
Proof. apply footprint_do_loop; try apply _; grows_tac. Qed.

End Footprints.


(** ** Calls into caller-supplied code *)

Section Calls.

Context {Cargo : Type}.
Implicit Types (st : Automata Cargo).

Lemma forEach_pushEvent (l : list (option Event)) st :
  forEach pushEvent l st =
  Ok tt (set_events (fun q => q ++ (default emptyEvent <$> l)) st).
Proof.
  revert st. induction l as [|x l IH]; intros st; cbn [forEach].
  - unfold ret, set_events. cbn. rewrite app_nil_r. now destruct st.
  - unfold bind, pushEvent, modify. rewrite IH.
    unfold set_events. cbn. now rewrite <- List.app_assoc.
Qed.

Lemma perform_eq {A} cargo (e : Effect Cargo A) st :
  perform cargo e st = completes e (performed cargo e st).
Proof.
  unfold perform, bind, modify. rewrite forEach_pushEvent.
  unfold completes. now destruct (eff_completion e).
Qed.

Lemma run_eq site context systemName stateName state event cargo v st :
  cargoes st !! cargo = Some v ->
  run site context systemName stateName state event cargo st =
  let e := handler state event v (view st) in
  completes e (performed cargo e
    (observe (ObsRun site context systemName stateName event (contexts st)) st)).
Proof.
  intros Hv. unfold run, bind, readCargo, gets, modify. rewrite Hv.
  now rewrite perform_eq.
Qed.

Lemma callOnTransition_eq f to from cargo v st :
  cargoes st !! cargo = Some v ->
  callOnTransition (Some f) to from cargo st =
  let e := f to from v in
  completes e (performed cargo e (observe (ObsOnTransition to from cargo) st)).
Proof.
  intros Hv. unfold callOnTransition, bind, readCargo, modify. rewrite Hv.
  now rewrite perform_eq.
Qed.

Lemma onUpdateContexts_eq st :
  _onUpdateContexts st =
  Ok tt (if onUpdateContexts st then observe ObsUpdateContexts st else st).
Proof. unfold _onUpdateContexts, bind, gets. now destruct (onUpdateContexts st). Qed.

Lemma deref_Ok context c st :
  objects st !! context = Some c -> deref context st = Ok c st.
Proof. unfold deref. now intros ->. Qed.

Lemma readCargo_Ok cargo v st :
  cargoes st !! cargo = Some v -> readCargo cargo st = Ok v st.
Proof. unfold readCargo. now intros ->. Qed.

Lemma systemOf_Ok systemName sys st :
  systems st !! systemName = Some sys -> systemOf systemName st = Ok sys st.
Proof. unfold systemOf. now intros ->. Qed.

Lemma stateOf_Ok (sys : gmap string (State Cargo)) stateName state st :
  sys !! stateName = Some state -> stateOf sys stateName st = Ok state st.
Proof. unfold stateOf. now intros ->. Qed.

Lemma completes_Ok {A} (e : Effect Cargo A) a st :
  eff_completion e = Returns a -> completes e st = Ok a st.
Proof. unfold completes. now intros ->. Qed.

Lemma run_Ok site context systemName stateName state event cargo v a st :
  cargoes st !! cargo = Some v ->
  eff_completion (handler state event v (view st)) = Returns a ->
  run site context systemName stateName state event cargo st =
  Ok a (performed cargo (handler state event v (view st))
          (observe (ObsRun site context systemName stateName event (contexts st)) st)).
Proof. intros Hv He. rewrite (run_eq _ _ _ _ _ _ _ v) by done. now apply completes_Ok. Qed.

Lemma callOnTransition_Ok f to from cargo v st :
  cargoes st !! cargo = Some v ->
  eff_completion (f to from v) = Returns tt ->
  callOnTransition (Some f) to from cargo st =
  Ok tt (performed cargo (f to from v) (observe (ObsOnTransition to from cargo) st)).
Proof. intros Hv He. rewrite (callOnTransition_eq _ _ _ _ v) by done. now apply completes_Ok. Qed.

End Calls.

(** Evaluate the first computation of a sequence that returns. *)
Ltac exec_with tac :=
  repeat rewrite bind_assoc;
  lazymatch goal with
  | |- context [bind ?m ?k ?st] =>
      erewrite (bind_Ok m k st); [| tac]; cbv beta iota
  end.

Ltac exec_prim :=
  first
    [ reflexivity
    | apply onUpdateContexts_eq
    | apply deref_Ok; eassumption
    | apply systemOf_Ok; eassumption
    | apply stateOf_Ok; eassumption
    | apply readCargo_Ok; eassumption ].

Ltac exec := exec_with exec_prim.

Section Properties.

Context {Cargo : Type}.
Implicit Types (st : Automata Cargo) (context child : ref) (c : Context).

(** C4. Asking for the state a context is in, other than by ["@end"] or
    ["@current"], returns [false] and leaves the whole state as it was: the
    stack, every context and cargo, the queue and the trace, so that no
    observer and no hook has run. *)
Theorem transitionTo_same_state st context c stateName :
  objects st !! context = Some c ->
  stateName = currentState c ->
  stateName <> "@end" ->
  stateName <> "@current" ->
  _transitionTo stateName context st = Ok false st.
Proof.
  intros Hc -> Hend Hcur.
  apply String.eqb_neq in Hend, Hcur.
  unfold _transitionTo, bind.
  rewrite Hend, Hcur.
  unfold deref. rewrite Hc.
  now rewrite String.eqb_refl.
Qed.

(** C5. Asking for ["#S"], [S] not being ["@current"], when the slot after
    the context holds a context of system [S], returns [false] and leaves
    the whole state as it was. *)
Theorem transitionTo_child_idempotent st context c child ch S i :
  objects st !! context = Some c ->
  S <> "@current" ->
  findIndex (contexts st) context = Z.of_nat i ->
  contexts st !! (i + 1)%nat = Some child ->
  objects st !! child = Some ch ->
  system ch = S ->
  _transitionTo (String "#" S) context st = Ok false st.
Proof.
  intros Hc Hcur Hidx Hchild Hch <-.
  apply String.eqb_neq in Hcur.
  unfold _transitionTo, bind.
  change (String.eqb (String "#" (system ch)) "@end") with false.
  change (String.eqb (String "#" (system ch)) "@current") with false.
  cbn iota.
  unfold deref at 1. rewrite Hc.
  destruct (String.eqb _ (currentState c)); [reflexivity|].
  cbn [startsWithHash slice1]. rewrite Hcur. unfold gets. rewrite Hidx.
  unfold at_index.
  replace (Z.of_nat i + 1 <? 0)%Z with false by lia.
  replace (Z.to_nat (Z.of_nat i + 1)) with (i + 1)%nat by lia.
  rewrite Hchild. unfold deref. rewrite Hch.
  now rewrite String.eqb_refl.
Qed.

Lemma insert_snoc {A} (l : list A) (x v : A) :
  <[length l := v]> (l ++ [x]) = l ++ [v].
Proof. rewrite insert_app_r_alt by lia. now rewrite Nat.sub_diag. Qed.

(** C7. For a registered system [S] with a [@start] state whose observer,
    if it has one, returns, [pushContext S] returns; it has put at the end
    of the stack a new context object in state ["@start"]; the cargo of the
    context is a new object, which no context had before, made by the cargo
    class and then handed to the observer, called with [S], ["@start"] and
    this cargo; the hook has run after the observer; and the [entered]
    event of [S] is the last of the queue. *)
Theorem pushContext_enters st S sys start :
  systems st !! S = Some sys ->
  sys !! "@start" = Some start ->
  (forall f, onTransitionHandler start = Some f ->
             eff_completion (f S "@start" (CargoClass st)) = Returns tt) ->
  exists st',
    pushContext S st = Ok tt st' /\
    contexts st' = contexts st ++ [length (objects st)] /\
    objects st' = objects st ++ [mkContext S "@start" (length (cargoes st))] /\
    objects st !! length (objects st) = None /\
    cargoes st !! length (cargoes st) = None /\
    (forall context c, objects st !! context = Some c ->
       is_Some (cargoes st !! cargo c) -> cargo c <> length (cargoes st)) /\
    cargoes st' = cargoes st ++
      [from_option (fun f => eff_cargo (f S "@start" (CargoClass st)))
                   (CargoClass st) (onTransitionHandler start)] /\
    trace st' = trace st ++
      from_option (fun _ => [ObsOnTransition S "@start" (length (cargoes st))])
                  [] (onTransitionHandler start) ++ hooked st /\
    events st' = events st ++
      from_option (fun f => default emptyEvent <$> eff_pushed (f S "@start" (CargoClass st)))
                  [] (onTransitionHandler start) ++ [entered S].
Proof.
  intros Hsys Hstart Hret.
  assert (Hnew : (cargoes st ++ [CargoClass st]) !! length (cargoes st)
                 = Some (CargoClass st)) by apply list_lookup_middle, eq_refl.
  assert (Hfresh : forall context c, objects st !! context = Some c ->
            is_Some (cargoes st !! cargo c) -> cargo c <> length (cargoes st)).
  { intros context c _ Hc%lookup_lt_is_Some. lia. }
  destruct (onTransitionHandler start) as [f|] eqn:Hf.
  - eexists. split.
    + unfold pushContext. do 5 exec. rewrite Hf.
      exec_with ltac:(apply (callOnTransition_Ok _ _ _ _ (CargoClass st));
                      [exact Hnew | now apply Hret]).
      exec. reflexivity.
    + unfold hooked. cbn. destruct (onUpdateContexts st); cbn;
        rewrite insert_snoc;
        repeat split; try (apply lookup_ge_None_2; lia); try exact Hfresh;
        rewrite <- ?List.app_assoc, ?app_nil_r; reflexivity.
  - eexists. split.
    + unfold pushContext. do 5 exec. rewrite Hf. do 2 exec. reflexivity.
    + unfold hooked. cbn. destruct (onUpdateContexts st); cbn;
        repeat split; try (apply lookup_ge_None_2; lia); try exact Hfresh;
        rewrite <- ?List.app_assoc, ?app_nil_r; reflexivity.
Qed.

#[global] Instance untouched_pre : PreOrder (@untouched Cargo).
Proof.
  split.
  - now intros st.
  - intros st1 st2 st3 [] []. split; congruence.
Qed.

(** A handler that is run if it is defined, and returns. *)
Lemma run_if_defined site context systemName stateName (o : option (State Cargo))
    event cargo v st :
  cargoes st !! cargo = Some v ->
  (forall state, o = Some state ->
     exists x, eff_completion (handler state event v (view st)) = Returns x) ->
  exists st',
    match o with
    | Some state =>
        bind (run site context systemName stateName state event cargo)
             (fun _ => ret tt)
    | None => ret tt
    end st = Ok tt st' /\
    untouched st st' /\
    (forall l, l <> cargo -> cargoes st' !! l = cargoes st !! l) /\
    trace st' = trace st ++
      from_option (fun _ => [ObsRun site context systemName stateName event (contexts st)])
                  [] o.
Proof.
  intros Hv Hret. destruct o as [state|].
  - destruct (Hret state eq_refl) as [x Hx].
    eexists. split; [|split; [|split]].
    + exec_with ltac:(eapply run_Ok; eassumption). reflexivity.
    + split; cbn; try reflexivity. apply length_insert.
    + intros l Hl. cbn. now apply list_lookup_insert_ne.
    + reflexivity.
  - exists st. repeat split. cbn. now rewrite app_nil_r.
Qed.

Lemma finalizeContext_returns st context c sys :
  objects st !! context = Some c ->
  systems st !! system c = Some sys ->
  is_Some (cargoes st !! cargo c) ->
  (forall state event v stack, sys !! "@finalize" = Some state ->
     exists x, eff_completion (handler state event v stack) = Returns x) ->
  exists st',
    _finalizeContext context st = Ok tt st' /\
    untouched st st' /\
    (forall l, l <> cargo c -> cargoes st' !! l = cargoes st !! l) /\
    trace st' = trace st ++
      from_option (fun _ => [ObsRun AtFinalize context (system c) "@finalize"
                                    (finalizeEvent context) (contexts st)])
                  [] (sys !! "@finalize").
Proof.
  intros Hc Hsys [v Hv] Hret.
  destruct (run_if_defined AtFinalize context (system c) "@finalize"
              (sys !! "@finalize") (finalizeEvent context) (cargo c) v st Hv)
    as (st' & Hrun & Hrest); [now eauto|].
  exists st'. split; [|exact Hrest].
  unfold _finalizeContext. do 2 exec. exact Hrun.
Qed.

(** C1. A context on top of the stack asks for ["@end"], and the [@end] and
    [@finalize] handlers of its system, where defined, return.  Then
    [_transitionTo] returns [true]; the stack is the stack without its top,
    one shorter; no context object has changed and no cargo but that of
    the context; and the trace shows, in this order, the [@end] handler run
    on the whole stack (whatever it returns), the [@finalize] handler run on
    the popped context with the stack already popped, and the hook. *)
Theorem transitionTo_end_pops st context c sys below :
  contexts st = below ++ [context] ->
  objects st !! context = Some c ->
  systems st !! system c = Some sys ->
  is_Some (cargoes st !! cargo c) ->
  (forall state event v stack, sys !! "@end" = Some state ->
     exists x, eff_completion (handler state event v stack) = Returns x) ->
  (forall state event v stack, sys !! "@finalize" = Some state ->
     exists x, eff_completion (handler state event v stack) = Returns x) ->
  exists st',
    _transitionTo "@end" context st = Ok true st' /\
    contexts st' = below /\
    length (contexts st') + 1 = length (contexts st) /\
    objects st' = objects st /\
    (forall l, l <> cargo c -> cargoes st' !! l = cargoes st !! l) /\
    trace st' = trace st ++
      from_option (fun _ => [ObsRun AtEnd context (system c) "@end"
                                    (endEvent context) (contexts st)])
                  [] (sys !! "@end") ++
      from_option (fun _ => [ObsRun AtFinalize context (system c) "@finalize"
                                    (finalizeEvent context) below])
                  [] (sys !! "@finalize") ++
      hooked st.
Proof.
  intros Hstack Hc Hsys [v Hv] Hend Hfin.
  destruct (run_if_defined AtEnd context (system c) "@end"
              (sys !! "@end") (endEvent context) (cargo c) v st Hv)
    as (st1 & Hrun1 & U1 & F1 & T1); [now eauto|].
  pose (st2 := set_contexts (fun cs => removelast cs) st1).
  assert (Hbelow : contexts st2 = below).
  { cbn. rewrite (untouched_contexts _ _ U1), Hstack. apply removelast_last. }
  destruct (finalizeContext_returns st2 context c sys) as (st3 & Hrun3 & U3 & F3 & T3).
  { cbn. now rewrite (untouched_objects _ _ U1). }
  { cbn. now rewrite (untouched_systems _ _ U1). }
  { cbn. apply lookup_lt_is_Some. rewrite (untouched_cargoes _ _ U1).
    now apply lookup_lt_is_Some; exists v. }
  { exact Hfin. }
  exists (if onUpdateContexts st3 then observe ObsUpdateContexts st3 else st3).
  split.
  - unfold _transitionTo.
    change (String.eqb "@end" "@end") with true. cbv iota.
    do 2 exec. exec_with ltac:(exact Hrun1). exec.
    cbn [contexts]. rewrite (untouched_contexts _ _ U1), Hstack, last_snoc.
    exec_with ltac:(exact Hrun3). exec. reflexivity.
  - assert (Hhook : onUpdateContexts st3 = onUpdateContexts st).
    { rewrite (untouched_hook _ _ U3). cbn. apply (untouched_hook _ _ U1). }
    assert (Hcs : contexts st3 = below).
    { now rewrite (untouched_contexts _ _ U3). }
    unfold hooked. rewrite Hhook.
    destruct (onUpdateContexts st); cbn; rewrite T3, Hbelow; cbn; rewrite T1;
      (split; [exact Hcs|]); (split; [rewrite Hcs, Hstack, length_app; cbn; lia|]);
      (split; [rewrite (untouched_objects _ _ U3); cbn; apply (untouched_objects _ _ U1)|]);
      (split; [intros l Hl; rewrite (F3 l Hl); cbn; now apply F1|]);
      rewrite <- ?List.app_assoc, ?app_nil_r; reflexivity.
Qed.

Lemma untouched_observe o st : untouched st (observe o st).
Proof. now split. Qed.

Lemma untouched_cargo_write cargo (v : Cargo) st :
  untouched st (set_cargoes (fun h => <[cargo := v]> h) st).
Proof. split; try reflexivity. cbn. apply length_insert. Qed.

Lemma untouched_push f st : untouched st (set_events f st).
Proof. now split. Qed.

Lemma untouched_perform {A} cargo (e : Effect Cargo A) :
  preserves untouched (perform cargo e).
Proof.
  unfold perform, pushEvent. pres;
    [apply untouched_cargo_write | apply untouched_push].
Qed.

Lemma untouched_run site context systemName stateName state event cargo :
  preserves untouched
    (run (Cargo:=Cargo) site context systemName stateName state event cargo).
Proof. unfold run. pres; [apply untouched_observe | apply untouched_perform]. Qed.

Lemma untouched_callOnTransition onTransition to from cargo :
  preserves untouched (callOnTransition (Cargo:=Cargo) onTransition to from cargo).
Proof.
  unfold callOnTransition. pres; [apply untouched_observe | apply untouched_perform].
Qed.

Lemma untouched_onUpdateContexts : preserves untouched (@_onUpdateContexts Cargo).
Proof. unfold _onUpdateContexts. pres. apply untouched_observe. Qed.

Lemma untouched_finalizeContext context :
  preserves untouched (_finalizeContext (Cargo:=Cargo) context).
Proof. unfold _finalizeContext. pres. apply untouched_run. Qed.

Lemma finalizeRun_untouched st st' context :
  untouched st st' -> finalizeRun st' context = finalizeRun st context.
Proof.
  intros [Hs Hk Ho _ _ Hl]. unfold finalizeRun. rewrite Hs, Hk, Ho.
  destruct (objects st !! context) as [c|]; [|reflexivity].
  destruct (systems st !! system c) as [sys|]; [|reflexivity].
  destruct (sys !! "@finalize"); [|reflexivity].
  destruct (cargoes st !! cargo c) eqn:E1, (cargoes st' !! cargo c) eqn:E2;
    try reflexivity.
  - apply lookup_ge_None_1 in E2. apply lookup_lt_Some in E1. lia.
  - apply lookup_ge_None_1 in E1. apply lookup_lt_Some in E2. lia.
Qed.

Lemma live_untouched st st' context :
  untouched st st' -> live st context -> live st' context.
Proof.
  intros [Hs _ Ho _ _ Hl] (c & sys & Hc & Hsys & Hv).
  exists c, sys. rewrite Hs, Ho. repeat split; try assumption.
  apply lookup_lt_is_Some. rewrite Hl. now apply lookup_lt_is_Some.
Qed.

(** However it ends, [_finalizeContext] shows in the trace as [finalizeRun]
    says. *)
Lemma finalizeContext_trace st context :
  trace (res_state (_finalizeContext context st)) = trace st ++ finalizeRun st context.
Proof.
  unfold _finalizeContext, finalizeRun, bind, deref, systemOf.
  destruct (objects st !! context) as [c|]; [|cbn; now rewrite app_nil_r].
  destruct (systems st !! system c) as [sys|]; [|cbn; now rewrite app_nil_r].
  destruct (sys !! "@finalize") as [state|]; [|cbn; now rewrite app_nil_r].
  destruct (cargoes st !! cargo c) as [v|] eqn:Hv.
  - rewrite (run_eq _ _ _ _ _ _ _ v) by done. cbv zeta. unfold completes.
    now destruct (eff_completion _).
  - unfold run, bind, readCargo. rewrite Hv. cbn. now rewrite app_nil_r.
Qed.

Lemma settleAll_untouched a st :
  untouched st (snd (settleAll _finalizeContext a st)).
Proof. apply preserves_settleAll; [apply _ | apply untouched_finalizeContext]. Qed.

Lemma settleAll_trace a st :
  trace (snd (settleAll _finalizeContext a st)) =
  trace st ++ concat (finalizeRun st <$> a).
Proof.
  revert st. induction a as [|x a IH]; intros st; cbn [settleAll].
  - cbn. now rewrite app_nil_r.
  - pose proof (finalizeContext_trace st x) as Hx.
    pose proof (untouched_finalizeContext x st) as Ux.
    assert (Hrest : forall st1, st1 = res_state (_finalizeContext x st) ->
              trace (snd (settleAll _finalizeContext a st1)) =
              trace st ++ concat (finalizeRun st <$> (x :: a))).
    { intros st1 ->. rewrite IH, Hx. cbn. rewrite <- List.app_assoc. do 2 f_equal.
      f_equal. apply list_fmap_ext. intros _ y _. now apply finalizeRun_untouched. }
    destruct (_finalizeContext x st) as [[] st1|e st1]; now apply Hrest.
Qed.

(** Well-formed contexts with handlers that return are all finalized. *)
Lemma settleAll_returns a st :
  Forall (live st) a -> finalizers_return st ->
  fst (settleAll _finalizeContext a st) = None.
Proof.
  revert st. induction a as [|x a IH]; intros st Ha Hret; cbn [settleAll]; [reflexivity|].
  apply Forall_cons in Ha as [(c & sys & Hc & Hsys & Hv) Ha].
  destruct (finalizeContext_returns st x c sys Hc Hsys Hv) as (st1 & -> & U & _).
  { intros state event v stack Hstate. now apply (Hret (system c) sys). }
  apply IH.
  - eapply Forall_impl; [exact Ha|]. intros y. now apply live_untouched.
  - intros systemName sys' state event v stack. rewrite (untouched_systems _ _ U).
    apply Hret.
Qed.

(** [_removeDescendants] in one equation: the finalizers are all run on the
    whole stack, and only when none of them failed is the stack cut. *)
Lemma removeDescendants_eq st context (withSelf : bool) :
  _removeDescendants context withSelf st =
  let start := (findIndex (contexts st) context + (if withSelf then 0 else 1))%Z in
  match settleAll _finalizeContext (sliceFrom (contexts st) start) st with
  | (None, st') => Ok tt (set_contexts (fun _ => sliceTo (contexts st) start) st')
  | (Some e, st') => Throw e st'
  end.
Proof.
  unfold _removeDescendants, bind, gets, promiseAll, modify. cbv zeta.
  now destruct (settleAll _ _ st) as [[e|] st'].
Qed.




Lemma findIndex_bounds (a : list ref) x :
  (-1 <= findIndex a x < Z.of_nat (length a))%Z.
Proof.
  induction a as [|c a IH]; cbn [findIndex length]; [lia|].
  destruct (Nat.eqb c x); [lia|].
  destruct (Z.ltb_spec (findIndex a x) 0); lia.
Qed.

Lemma findIndex_lookup (a : list ref) x i :
  findIndex a x = Z.of_nat i -> a !! i = Some x.
Proof.
  revert i. induction a as [|c a IH]; intros i; cbn [findIndex]; [lia|].
  destruct (Nat.eqb_spec c x) as [->|Hne].
  - intros H. now replace i with 0%nat by lia.
  - destruct (Z.ltb_spec (findIndex a x) 0) as [Hlt|Hge]; [lia|].
    intros H. destruct i as [|i]; [lia|]. cbn. apply IH. lia.
Qed.

Lemma slice_after (a : list ref) x i :
  findIndex a x = Z.of_nat i ->
  sliceTo a (findIndex a x + 1) = take (S i) a /\
  sliceFrom a (findIndex a x + 1) = drop (S i) a.
Proof.
  intros H. pose proof (findIndex_bounds a x) as B.
  unfold sliceTo, sliceFrom, relativeIndex. rewrite H in *.
  destruct (Z.ltb_spec (Z.of_nat i + 1) 0); [lia|].
  now replace (Z.to_nat (Z.min (Z.of_nat i + 1) (Z.of_nat (length a)))) with (S i) by lia.
Qed.

Lemma transitionTo_current_true context :
  returns_only (eq true) (_transitionTo (Cargo:=Cargo) "@current" context).
Proof.
  unfold _transitionTo.
  change (String.eqb "@current" "@end") with false.
  change (String.eqb "@current" "@current") with true. cbv iota.
  apply (returns_only_bind (eq None)).
  - repeat returns_step; reflexivity.
  - intros early <-. repeat returns_step; reflexivity.
Qed.

(** C6. A context at index [i] of the stack asks for ["@current"]; the
    contexts above it are well-formed, and the [@finalize] handlers and the
    observer of the current state return.  Then [_transitionTo] returns
    [true]; the stack is cut just above the context, which stays on it; no
    context object has changed, so that [currentState] is what it was; and
    the trace shows the finalizers of the contexts above, then the observer
    called with the current state as both [to] and [from], then the hook,
    twice.  And in any state whatever, a request for ["@current"] that
    returns, returns [true]. *)
Theorem transitionTo_current_reenters st context i c sys state :
  findIndex (contexts st) context = Z.of_nat i ->
  objects st !! context = Some c ->
  systems st !! system c = Some sys ->
  sys !! currentState c = Some state ->
  is_Some (cargoes st !! cargo c) ->
  Forall (live st) (drop (S i) (contexts st)) ->
  finalizers_return st ->
  (forall f to from v, onTransitionHandler state = Some f ->
     eff_completion (f to from v) = Returns tt) ->
  (exists st',
     _transitionTo "@current" context st = Ok true st' /\
     contexts st' = take (S i) (contexts st) /\
     contexts st' !! i = Some context /\
     objects st' = objects st /\
     trace st' = trace st ++
       concat (finalizeRun st <$> drop (S i) (contexts st)) ++
       from_option (fun _ => [ObsOnTransition (currentState c) (currentState c) (cargo c)])
                   [] (onTransitionHandler state) ++
       hooked st ++ hooked st) /\
  (forall st0 b st', _transitionTo "@current" context st0 = Ok b st' -> b = true).
Proof.
  intros Hidx Hc Hsys Hstate Hv Hlive Hfin Hobs.
  split; [|intros st0 b st' H; symmetry; exact (transitionTo_current_true _ _ _ _ H)].
  destruct (slice_after _ _ _ Hidx) as [Hto Hfrom].
  pose proof (settleAll_untouched (drop (S i) (contexts st)) st) as U.
  pose proof (settleAll_trace (drop (S i) (contexts st)) st) as T.
  pose proof (settleAll_returns _ _ Hlive Hfin) as Hnone.
  destruct (settleAll _finalizeContext (drop (S i) (contexts st)) st) as [o st1] eqn:E.
  cbn [fst snd] in *. subst o.
  pose (st2 := set_contexts (fun _ => take (S i) (contexts st)) st1).
  assert (Hrd : _removeDescendants context false st = Ok tt st2).
  { rewrite removeDescendants_eq. cbv zeta. now rewrite Hto, Hfrom, E. }
  assert (Hc2 : objects st2 !! context = Some c)
    by (cbn; now rewrite (untouched_objects _ _ U)).
  assert (Hsys2 : systems st2 !! system c = Some sys)
    by (cbn; now rewrite (untouched_systems _ _ U)).
  assert (Hv2 : is_Some (cargoes st2 !! cargo c)).
  { cbn. apply lookup_lt_is_Some. rewrite (untouched_cargoes _ _ U).
    now apply lookup_lt_is_Some. }
  destruct Hv2 as [v2 Hv2].
  assert (Hhook : onUpdateContexts st1 = onUpdateContexts st)
    by apply (untouched_hook _ _ U).
  assert (Hi : take (S i) (contexts st) !! i = Some context).
  { rewrite lookup_take_lt by lia. now apply findIndex_lookup. }
  destruct (onTransitionHandler state) as [f|] eqn:Hf.
  - eexists. split.
    + unfold _transitionTo.
      change (String.eqb "@current" "@end") with false.
      change (String.eqb "@current" "@current") with true. cbv iota.
      exec_with ltac:(exact Hrd). do 3 exec. rewrite Hf.
      exec_with ltac:(apply (callOnTransition_Ok _ _ _ _ v2); [exact Hv2 | now eapply Hobs]).
      do 3 exec. reflexivity.
    + unfold hooked. cbn. rewrite Hhook.
      destruct (onUpdateContexts st) eqn:Hk; cbn; rewrite ?Hhook, ?Hk; cbn;
        rewrite T, (untouched_objects _ _ U);
        repeat split; try exact Hi;
        rewrite <- ?List.app_assoc, ?app_nil_r; reflexivity.
  - eexists. split.
    + unfold _transitionTo.
      change (String.eqb "@current" "@end") with false.
      change (String.eqb "@current" "@current") with true. cbv iota.
      exec_with ltac:(exact Hrd). do 3 exec. rewrite Hf.
      do 4 exec. reflexivity.
    + unfold hooked. cbn. rewrite Hhook.
      destruct (onUpdateContexts st) eqn:Hk; cbn; rewrite ?Hhook, ?Hk; cbn;
        rewrite T, (untouched_objects _ _ U);
        repeat split; try exact Hi;
        rewrite <- ?List.app_assoc, ?app_nil_r; reflexivity.
Qed.

Lemma rejects_ret a : rejects (Cargo:=Cargo) (ret a).
Proof. intros st a' st' [= _ <-] _. reflexivity. Qed.

Lemma rejects_throw e : rejects (Cargo:=Cargo) (throw e).
Proof. intros st a st' [=]. Qed.

Lemma rejects_never m :
  returns_only (Cargo:=Cargo) (fun a => a <> Some false) m -> rejects m.
Proof. intros Hm st a st' H Ha. now destruct (Hm _ _ _ H). Qed.

Lemma rejects_bind {A} (m : M Cargo A) k :
  preserves untouched m -> (forall a, rejects (k a)) -> rejects (bind m k).
Proof.
  intros Hm Hk st b st' (a & st1 & H1 & H2)%bind_inv_Ok Hb.
  specialize (Hm st). rewrite H1 in Hm. cbn in Hm.
  etransitivity; [exact Hm | exact (Hk a _ _ _ H2 Hb)].
Qed.

Ltac rejects_step :=
  lazymatch goal with
  | |- rejects (bind _ _) =>
      apply rejects_bind;
      [first [ apply preserves_deref | apply preserves_systemOf | apply preserves_gets
             | apply preserves_stateOf ]; apply _
      | intros ?]
  | |- rejects (ret _) => apply rejects_ret
  | |- rejects (throw _) => apply rejects_throw
  | |- rejects (match ?x with _ => _ end) => destruct x eqn:?
  | |- rejects (let _ := _ in _) => cbv zeta
  end.

Lemma rejects_pop (k : ref -> M Cargo (option bool)) :
  (forall self, returns_only (fun a => a <> Some false) (k self)) ->
  rejects (bind popContext (fun popped =>
             match popped with
             | Some self => k self
             | None => ret (Some false)
             end)).
Proof.
  intros Hk st a st'. unfold popContext, bind, gets, modify, ret.
  destruct (last (contexts st)) as [self|] eqn:E.
  - intros H Ha. now destruct (Hk self _ _ _ H).
  - intros [= <- <-] _. apply last_None in E.
    split; try reflexivity. cbn. now rewrite E.
Qed.

(** A transition that is refused leaves the stack and the contexts as they
    were. *)
Lemma transitionTo_rejected stateName context st st' :
  _transitionTo stateName context st = Ok false st' -> untouched st st'.
Proof.
  unfold _transitionTo. intros H.
  apply bind_inv_Ok in H as (early & st1 & H1 & H).
  destruct early as [b|]; cycle 1.
  { assert (Htrue : returns_only (Cargo:=Cargo) (eq true)
                      (bind _onUpdateContexts (fun _ => ret true)))
      by (repeat returns_step; reflexivity).
    now pose proof (Htrue _ _ _ H). }
  injection H as -> ->.
  lazymatch type of H1 with
  | ?m st = _ => cut (rejects m); [intros Hr; exact (Hr _ _ _ H1 eq_refl)|]
  end.
  clear.
  repeat rejects_step.
  - apply rejects_bind.
    + pres. apply untouched_run.
    + intros _. apply rejects_pop. intros self.
      repeat returns_step; discriminate.
  - apply rejects_never. repeat returns_step; discriminate.
  - apply rejects_bind.
    + pres.
    + intros [systemName|]; [|apply rejects_ret].
      apply rejects_never. repeat returns_step; discriminate.
  - apply rejects_never. repeat returns_step; discriminate.
Qed.

(** ** The loop of [do] *)

Lemma dispatched_inner t : Forall inner t -> dispatched t = [].
Proof.
  induction 1 as [|o t Ho _ IH]; [reflexivity|].
  unfold dispatched in *. cbn. rewrite IH.
  destruct o as [| [] | | |]; cbn in Ho |- *; done.
Qed.

Lemma stamps_inner t : Forall inner t -> stamps t = 0%nat.
Proof.
  induction 1 as [|o t Ho _ IH]; [reflexivity|].
  unfold stamps in *. cbn. destruct o; cbn in Ho |- *; done.
Qed.

Lemma offer_of_inner event stack t :
  Forall inner t -> Forall (offer_of event stack) t.
Proof.
  intros H. eapply Forall_impl; [exact H|].
  intros o Ho. destruct o as [| [] | | |]; cbn in Ho |- *; done.
Qed.

Lemma stamps_app t1 t2 : stamps (t1 ++ t2) = (stamps t1 + stamps t2)%nat.
Proof. unfold stamps. now rewrite omap_app, length_app. Qed.

Lemma dispatched_app t1 t2 : dispatched (t1 ++ t2) = dispatched t1 ++ dispatched t2.
Proof. unfold dispatched. now rewrite omap_app. Qed.

Lemma loop_trace_untouched st st' event cs t finished :
  untouched st st' -> loop_trace st' event cs t finished -> loop_trace st event cs t finished.
Proof.
  intros U (k & Hd & Ho & Hrest). exists k.
  rewrite <- (untouched_contexts _ _ U). split; [|now split].
  rewrite Hd. apply list_filter_iff. intros context. unfold eligible.
  now rewrite (untouched_objects _ _ U).
Qed.

Lemma loop_trace_abort st event cs : loop_trace st event cs [] false.
Proof. exists 0%nat. repeat split; cbn; try done; lia. Qed.

Lemma loop_trace_nil st event finished : loop_trace st event [] [] finished.
Proof. exists 0%nat. repeat split; cbn; try done; lia. Qed.

Lemma loop_trace_stamp st event cs finished :
  loop_trace st event cs [ObsLatestTransition] finished.
Proof.
  exists 0%nat. cbn.
  split; [reflexivity|]. split; [now repeat constructor|].
  split; [lia|]. split; [reflexivity|]. discriminate.
Qed.

Lemma loop_trace_skip st event context rest t finished :
  eligible st event context = false ->
  loop_trace st event rest t finished ->
  loop_trace st event (context :: rest) t finished.
Proof.
  intros He (k & Hd & Ho & Hs & Hl & Hf). exists (S k).
  split; [|split; [exact Ho|split; [exact Hs|split; [exact Hl|]]]].
  - cbn [take]. rewrite filter_cons_False by congruence. exact Hd.
  - intros Hfin Hz. specialize (Hf Hfin Hz). cbn. lia.
Qed.

Lemma loop_trace_offer st event context systemName stateName rest t2 t finished :
  eligible st event context = true ->
  Forall inner t2 ->
  loop_trace st event rest t finished ->
  loop_trace st event (context :: rest)
    (ObsRun AtDispatch context systemName stateName event (contexts st) :: t2 ++ t)
    finished.
Proof.
  intros He H2 (k & Hd & Ho & Hs & Hl & Hf). exists (S k).
  assert (Hst : stamps (ObsRun AtDispatch context systemName stateName event (contexts st)
                         :: t2 ++ t) = stamps t).
  { change (stamps (?o :: ?l)) with (stamps l).
    now rewrite stamps_app, (stamps_inner _ H2). }
  rewrite Hst.
  split; [|split; [|split; [exact Hs|split]]].
  - cbn [take]. rewrite filter_cons_True by exact He.
    change (dispatched (?o :: ?l)) with (context :: dispatched l).
    now rewrite dispatched_app, (dispatched_inner _ H2), Hd.
  - constructor; [now split|]. apply Forall_app. split; [|exact Ho].
    now apply offer_of_inner.
  - intros H1. specialize (Hl H1).
    change (?o :: t2 ++ t) with ((o :: t2) ++ t). rewrite last_app. now rewrite Hl.
  - intros Hfin Hz. specialize (Hf Hfin Hz). cbn. lia.
Qed.

Lemma skip_cases event systemName st :
  let skip := if fieldIs (type event) "automata" && fieldIs (name event) "transition"
              then otherSystem event systemName else ret false in
  skip st = Throw TypeError st \/
  skip st = Ok (targetedElsewhere event systemName) st.
Proof.
  cbv zeta. unfold targetedElsewhere, otherSystem.
  destruct (fieldIs (type event) "automata" && fieldIs (name event) "transition");
    [|now right].
  destruct (data event) as [[]|]; cbn; auto.
Qed.

Lemma stamps_offer context systemName stateName event stack t2 t :
  Forall inner t2 ->
  stamps (ObsRun AtDispatch context systemName stateName event stack :: t2 ++ t) = stamps t.
Proof.
  intros H2. change (stamps (?o :: ?l)) with (stamps l).
  now rewrite stamps_app, (stamps_inner _ H2).
Qed.

(** The loop of [do] from any state: its trace, and that without a stamp
    it has changed nothing but what handlers may change. *)
Lemma do_loop_trace event cs st :
  exists t,
    trace (res_state (do_loop event cs st)) = trace st ++ t /\
    loop_trace st event cs t (returned (do_loop event cs st)) /\
    (returned (do_loop event cs st) = true -> stamps t = 0%nat ->
     untouched st (res_state (do_loop event cs st))).
Proof.
  revert st. induction cs as [|context rest IH]; intros st.
  { exists []. cbn. rewrite app_nil_r.
    split; [reflexivity|]. split; [apply loop_trace_nil | reflexivity]. }
  set (P := fun r : Res Cargo unit =>
              exists t, trace (res_state r) = trace st ++ t /\
                        loop_trace st event (context :: rest) t (returned r) /\
                        (returned r = true -> stamps t = 0%nat ->
                         untouched st (res_state r))).
  change (P (do_loop event (context :: rest) st)).
  assert (Habort : forall e, P (Throw e st)).
  { intros e. exists []. cbn. rewrite app_nil_r.
    split; [reflexivity|]. split; [apply loop_trace_abort | discriminate]. }
  cbn [do_loop]. unfold bind at 1, deref.
  destruct (objects st !! context) as [c|] eqn:Hc; [|apply Habort].
  unfold bind at 1, systemOf.
  destruct (systems st !! system c) as [sys|] eqn:Hsys; [|apply Habort].
  cbv zeta. unfold bind at 1.
  destruct (skip_cases event (system c) st) as [-> | ->]; [apply Habort|].
  assert (Hel : eligible st event context = negb (targetedElsewhere event (system c)))
    by (unfold eligible; now rewrite Hc).
  destruct (targetedElsewhere event (system c)); cbn [negb] in Hel.
  { destruct (IH st) as (t & Ht & Hl & Hu). exists t.
    split; [exact Ht|]. split; [now apply loop_trace_skip | exact Hu]. }
  unfold bind at 1.
  destruct (sys !! currentState c) as [state|]; [|apply Habort].
  cbn [ret]. unfold bind at 1.
  destruct (cargoes st !! cargo c) as [v|] eqn:Hv; cycle 1.
  { unfold run, bind, readCargo. rewrite Hv. apply Habort. }
  rewrite (run_eq _ _ _ _ _ _ _ v) by exact Hv. cbv zeta.
  set (e := handler state event v (view st)).
  set (o := ObsRun AtDispatch context (system c) (currentState c) event (contexts st)).
  set (st1 := performed (cargo c) e (observe o st)).
  assert (U1 : untouched st st1).
  { split; cbn; try reflexivity. apply length_insert. }
  assert (T1 : trace st1 = trace st ++ [o]) by reflexivity.
  assert (Hnext : P (do_loop event rest st1)).
  { destruct (IH st1) as (t & Ht & Hl & Hu). exists (o :: [] ++ t).
    split; [|split].
    - rewrite Ht, T1, <- List.app_assoc. reflexivity.
    - apply loop_trace_offer; [exact Hel | constructor|].
      now apply (loop_trace_untouched _ st1).
    - intros Hr Hz. unfold o in Hz. rewrite stamps_offer in Hz by constructor.
      etransitivity; [exact U1 | now apply Hu]. }
  unfold completes. destruct (eff_completion e) as [next|].
  2: { exists (o :: [] ++ []). split; [exact T1|].
       split; [|discriminate].
       apply loop_trace_offer; [exact Hel | constructor | apply loop_trace_abort]. }
  destruct next as [[|a nextStateName]|]; [exact Hnext| |exact Hnext].
  unfold bind at 1.
  destruct (quiet_transitionTo (String a nextStateName) context st1) as (t2 & T2 & I2).
  pose proof (transitionTo_rejected (String a nextStateName) context st1) as Hrej.
  destruct (_transitionTo (String a nextStateName) context st1) as [[|] st2|err st2];
    cbn [res_state] in T2.
  - exists (o :: t2 ++ [ObsLatestTransition]). split; [|split].
    + cbn. rewrite T2, T1, <- !List.app_assoc. reflexivity.
    + apply loop_trace_offer; [exact Hel | exact I2 | apply loop_trace_stamp].
    + intros _ Hz. unfold o in Hz. rewrite stamps_offer in Hz by exact I2.
      discriminate.
  - specialize (Hrej st2 eq_refl).
    destruct (IH st2) as (t & Ht & Hl & Hu). exists (o :: t2 ++ t). split; [|split].
    + rewrite Ht, T2, T1, <- !List.app_assoc. reflexivity.
    + apply loop_trace_offer; [exact Hel | exact I2|].
      apply (loop_trace_untouched _ st1); [exact U1|].
      now apply (loop_trace_untouched _ st2).
    + intros Hr Hz. unfold o in Hz. rewrite stamps_offer in Hz by exact I2.
      etransitivity; [exact U1|]. etransitivity; [exact Hrej | now apply Hu].
  - exists (o :: t2 ++ []). split; [|split; [|discriminate]].
    + cbn. rewrite T2, T1, <- !List.app_assoc, app_nil_r. reflexivity.
    + apply loop_trace_offer; [exact Hel | exact I2 | apply loop_trace_abort].
Qed.

(** ** One step *)

Lemma dispatch_eq event st :
  dispatch event st =
  match do_loop event (contexts st) (observe (ObsYield event) st) with
  | Ok _ st' => Ok (0 <? length (contexts st'))%nat st'
  | Throw e st' => Throw e st'
  end.
Proof.
  unfold dispatch, bind, modify, gets, ret. cbn [contexts observe].
  now destruct (do_loop _ _ _).
Qed.

Lemma res_state_dispatch event st :
  res_state (dispatch event st) =
  res_state (do_loop event (contexts st) (observe (ObsYield event) st)).
Proof. rewrite dispatch_eq. now destruct (do_loop _ _ _). Qed.

Lemma yields_offers event stack t : Forall (offer_of event stack) t -> yields t = [].
Proof.
  induction 1 as [|o t Ho _ IH]; [reflexivity|].
  unfold yields in *. cbn. rewrite IH. now destruct o.
Qed.

(** One call of [do] on a queue that is not empty. *)
Lemma do_step st event rest :
  events st = event :: rest ->
  exists r t,
    do st = Some r /\
    trace (res_state r) = trace st ++ ObsYield event :: t /\
    loop_trace st event (contexts st) t (returned r) /\
    (returned r = true -> stamps t = 0%nat -> untouched st (res_state r)) /\
    (exists pushed, events (res_state r) = rest ++ pushed).
Proof.
  intros Hq. unfold do. rewrite Hq. eexists.
  set (st0 := observe (ObsYield event) (set_events (fun _ => rest) st)).
  destruct (do_loop_trace event (contexts st) st0) as (t & Ht & Hl & Hu).
  pose proof (fifo_do_loop event (contexts st) st0) as Hfifo.
  exists t. split; [reflexivity|].
  rewrite dispatch_eq. cbn [contexts set_events]. fold st0.
  assert (Hsame : forall r : Res Cargo unit,
            res_state
              match r with
              | Ok _ st' => Ok (0 <? length (contexts st'))%nat st'
              | Throw e st' => Throw e st'
              end = res_state r /\
            returned
              match r with
              | Ok _ st' => Ok (0 <? length (contexts st'))%nat st'
              | Throw e st' => Throw e st'
              end = returned r) by (now intros []).
  destruct (Hsame (do_loop event (contexts st) st0)) as [-> ->].
  split; [|split; [|split]].
  - rewrite Ht. cbn. now rewrite <- List.app_assoc.
  - destruct Hl as (k & Hd & Ho & Hrest). exists k. split; [|now split].
    rewrite Hd. apply list_filter_iff. intros context. reflexivity.
  - intros Hr Hz. destruct (Hu Hr Hz) as [H1 H2 H3 H4 H5 H6]. now split.
  - destruct Hl as (k & _ & Ho & _). apply yields_offers in Ho.
    unfold fifo, history in Hfifo. rewrite Ht in Hfifo.
    unfold yields in Hfifo, Ho. rewrite omap_app, Ho, app_nil_r in Hfifo.
    cbn in Hfifo. rewrite omap_app in Hfifo. cbn in Hfifo.
    rewrite <- !List.app_assoc in Hfifo.
    apply prefix_app_inv in Hfifo. cbn in Hfifo.
    apply prefix_cons_inv_2 in Hfifo. exact Hfifo.
Qed.


Lemma calls_yields n st :
  (n <= length (events st))%nat ->
  yields (trace (calls n st)) = yields (trace st) ++ take n (events st).
Proof.
  revert st. induction n as [|n IH]; intros st Hn; cbn [calls].
  { cbn. now rewrite app_nil_r. }
  destruct (events st) as [|event rest] eqn:Hq; [cbn in Hn; lia|].
  destruct (do_step st event rest Hq)
    as (r & t & -> & Ht & (k & _ & Ho & _) & _ & pushed & Hp).
  cbn in Hn. rewrite IH by (rewrite Hp, length_app; lia).
  rewrite Ht, Hp. unfold yields at 1. rewrite omap_app. cbn.
  fold (yields t). fold (yields (trace st)).
  rewrite (yields_offers _ _ _ Ho), take_app_le by lia.
  now rewrite <- List.app_assoc.
Qed.

(** C8. [pushEvent] puts its argument, or [{}] for none, at the end of the
    queue.  [do] has an outcome exactly when the queue is not empty; it
    then yields the head of the queue, once, offers nothing but that event,
    and leaves the rest of the queue in place, with what was pushed
    meanwhile after it.  So [n] calls of [do] yield the first [n] events
    of the queue in their order, and events pushed on an empty queue are
    yielded in the order of the pushes. *)
Theorem queue_is_fifo :
  (forall (st : Automata Cargo) event,
     pushEvent event st =
     Ok tt (set_events (fun q => q ++ [default emptyEvent event]) st)) /\
  (forall st : Automata Cargo, do st = None <-> events st = []) /\
  (forall (st : Automata Cargo) event rest,
     events st = event :: rest ->
     exists r t pushed,
       do st = Some r /\
       trace (res_state r) = trace st ++ ObsYield event :: t /\
       yields t = [] /\
       Forall (offer_of event (contexts st)) t /\
       events (res_state r) = rest ++ pushed) /\
  (forall n (st : Automata Cargo),
     (n <= length (events st))%nat ->
     yields (trace (calls n st)) = yields (trace st) ++ take n (events st)) /\
  (forall pushed (st : Automata Cargo),
     events st = [] ->
     yields (trace (calls (length pushed) (res_state (forEach pushEvent pushed st)))) =
     yields (trace st) ++ (default emptyEvent <$> pushed)).
Proof.
  split; [reflexivity|]. split; [|split; [|split]].
  - intros st. unfold do. destruct (events st); split; intros; congruence.
  - intros st event rest Hq.
    destruct (do_step st event rest Hq)
      as (r & t & Hdo & Ht & (k & _ & Ho & _) & _ & pushed & Hp).
    exists r, t, pushed. repeat (split; [try assumption|]); try assumption.
    now apply (yields_offers event (contexts st)).
  - apply calls_yields.
  - intros pushed st Hq. rewrite forEach_pushEvent. cbn [res_state].
    rewrite calls_yields; cbn; rewrite Hq; cbn.
    + f_equal. apply take_ge. now rewrite length_fmap.
    + now rewrite length_fmap.
Qed.

Lemma ordinary_new_automata st : objects st = [] -> states_ordinary st.
Proof. intros H context c. now rewrite H. Qed.

(** C9, as amended.  In every state that the operations of the class lead
    to, whether they return or throw, no context object that was ever made
    is in a state named ["@end"] or ["@current"] or by a name that starts
    with ["#"]: these are the tokens that [_transitionTo] takes for itself
    before the branch that assigns [currentState].  (The names ["@start"]
    and ["@finalize"] are not among them.) *)
Theorem reachable_ordinary st :
  reachable st ->
  forall context c,
    objects st !! context = Some c ->
    currentState c <> "@end" /\
    currentState c <> "@current" /\
    startsWithHash (currentState c) = false.
Proof.
  intros Hr.
  assert (Ho : states_ordinary st).
  { induction Hr as [st H _| st name sys _ IH | st event _ IH | st systemName _ IH
                    | st context _ IH | st context withSelf _ IH
                    | st stateName context _ IH | st r _ IH Hdo].
    - now apply ordinary_new_automata.
    - exact IH.
    - exact IH.
    - now apply ordinary_pushContext.
    - now apply ordinary_finalizeContext.
    - now apply ordinary_removeDescendants.
    - now apply ordinary_transitionTo.
    - unfold do in Hdo. destruct (events st) as [|event rest]; [discriminate|].
      injection Hdo as <-. rewrite res_state_dispatch.
      now apply ordinary_do_loop. }
  intros context c Hc. specialize (Ho context c Hc). unfold reserved in Ho.
  repeat split; try tauto. destruct (startsWithHash (currentState c)); tauto.
Qed.

(** C10. The stack is not empty and the head of the queue has no [data].
    If its type and name are ["automata"] and ["transition"], [do] throws
    (a TypeError, the first context being an object) after it has taken the
    event from the queue and before any handler has run.  If they are not,
    the event is offered to the first context. *)
Theorem transition_event_needs_data st event rest context cs :
  events st = event :: rest ->
  contexts st = context :: cs ->
  data event = None ->
  (fieldIs (type event) "automata" && fieldIs (name event) "transition" = true ->
   exists e,
     do st = Some (Throw e (observe (ObsYield event) (set_events (fun _ => rest) st))) /\
     (is_Some (objects st !! context) -> e = TypeError)) /\
  (fieldIs (type event) "automata" && fieldIs (name event) "transition" = false ->
   forall c sys state,
     objects st !! context = Some c ->
     systems st !! system c = Some sys ->
     sys !! currentState c = Some state ->
     is_Some (cargoes st !! cargo c) ->
     exists r t,
       do st = Some r /\
       trace (res_state r) =
         trace st ++ ObsYield event ::
           ObsRun AtDispatch context (system c) (currentState c) event (contexts st) :: t).
Proof.
  intros Hq Hstack Hdata. unfold do. rewrite Hq.
  set (st0 := observe (ObsYield event) (set_events (fun _ => rest) st)).
  split.
  - intros Hpair. rewrite dispatch_eq. cbn [contexts set_events]. fold st0.
    rewrite Hstack. cbn [do_loop]. unfold bind at 1, deref.
    change (objects st0) with (objects st).
    destruct (objects st !! context) as [c|].
    2: { eexists. split; [reflexivity|]. now intros [? [=]]. }
    unfold bind at 1, systemOf.
    destruct (systems st0 !! system c) as [sys|]; [|now eexists].
    cbv zeta. unfold bind at 1. rewrite Hpair. unfold otherSystem. rewrite Hdata.
    now eexists.
  - intros Hpair c sys state Hc Hsys Hstate [v Hv].
    set (o := ObsRun AtDispatch context (system c) (currentState c) event (contexts st)).
    cut (grows (observe o st0)
               (res_state (dispatch event (set_events (fun _ => rest) st)))).
    { intros [t Ht]. eexists. exists t. split; [reflexivity|].
      rewrite Ht. unfold st0. cbn. rewrite <- !List.app_assoc. reflexivity. }
    rewrite res_state_dispatch. cbn [contexts set_events]. fold st0.
    rewrite Hstack. cbn [do_loop].
    do 2 exec. rewrite Hpair. exec. rewrite Hstate. exec.
    unfold bind at 1. rewrite (run_eq _ _ _ _ _ _ _ v) by exact Hv. cbv zeta.
    fold o. set (e := handler state event v (view st0)).
    assert (G1 : grows (observe o st0) (performed (cargo c) e (observe o st0)))
      by now apply grows_same.
    unfold completes. destruct (eff_completion e) as [next|]; [|exact G1].
    etransitivity; [exact G1|].
    lazymatch goal with
    | |- grows _ (res_state (?k ?s)) => cut (preserves grows k); [intros Hk; apply (Hk s)|]
    end.
    destruct next as [[|a nextStateName]|]; try apply grows_do_loop.
    pres; [apply grows_transitionTo | apply grows_observe | apply grows_do_loop].
Qed.

End Properties.

(** * The properties at work *)

Lemma transitionTo_end_pops_witness :
  contexts Demo.nested = [0] ++ [1] /\
  objects Demo.nested !! 1 = Some (mkContext "job" "work" 1) /\
  systems Demo.nested !! "job" = Some Demo.job /\
  is_Some (cargoes Demo.nested !! 1) /\
  exists st',
    _transitionTo "@end" 1 Demo.nested = Ok true st' /\
    contexts st' = [0] /\
    objects st' = objects Demo.nested /\
    trace st' = [ObsRun AtEnd 1 "job" "@end" (endEvent 1) [0; 1];
                 ObsRun AtFinalize 1 "job" "@finalize" (finalizeEvent 1) [0];
                 ObsUpdateContexts].
Proof.
  split; [reflexivity|]. split; [reflexivity|]. split; [reflexivity|].
  split; [now exists 5|].
  destruct (transitionTo_end_pops Demo.nested 1 (mkContext "job" "work" 1) Demo.job [0])
    as (st' & H & Hc & _ & Ho & _ & Ht).
  - reflexivity.
  - reflexivity.
  - reflexivity.
  - now exists 5.
  - intros state event v stack [= <-]. now eexists.
  - intros state event v stack [= <-]. now eexists.
  - exists st'. repeat split; assumption.
Defined.

Lemma transitionTo_same_state_witness :
  objects Demo.nested !! 0 = Some (mkContext "job" "work" 0) /\
  "work" = currentState (mkContext "job" "work" 0) /\
  "work" <> "@end" /\
  "work" <> "@current" /\
  _transitionTo "work" 0 Demo.nested = Ok false Demo.nested.
Proof.
  split; [reflexivity|]. split; [reflexivity|].
  split; [discriminate|]. split; [discriminate|].
  apply (transitionTo_same_state Demo.nested 0 (mkContext "job" "work" 0) "work");
    [reflexivity | reflexivity | discriminate | discriminate].
Defined.

Lemma transitionTo_child_idempotent_witness :
  objects Demo.nested !! 0 = Some (mkContext "job" "work" 0) /\
  "job" <> "@current" /\
  findIndex (contexts Demo.nested) 0 = Z.of_nat 0 /\
  contexts Demo.nested !! (0 + 1)%nat = Some 1 /\
  objects Demo.nested !! 1 = Some (mkContext "job" "work" 1) /\
  system (mkContext "job" "work" 1) = "job" /\
  _transitionTo "#job" 0 Demo.nested = Ok false Demo.nested.
Proof.
  split; [reflexivity|]. split; [discriminate|]. split; [reflexivity|].
  split; [reflexivity|]. split; [reflexivity|]. split; [reflexivity|].
  apply (transitionTo_child_idempotent Demo.nested 0 (mkContext "job" "work" 0)
           1 (mkContext "job" "work" 1) "job" 0);
    [reflexivity | discriminate | reflexivity | reflexivity | reflexivity | reflexivity].
Defined.

Lemma demo_finalizers_return : finalizers_return Demo.nested.
Proof.
  intros systemName sys state event v stack Hsys.
  unfold Demo.nested, systems in Hsys.
  apply lookup_singleton_Some in Hsys as [_ <-].
  intros [= <-]. now eexists.
Qed.

Lemma transitionTo_current_reenters_witness :
  findIndex (contexts Demo.nested) 0 = Z.of_nat 0 /\
  objects Demo.nested !! 0 = Some (mkContext "job" "work" 0) /\
  systems Demo.nested !! "job" = Some Demo.job /\
  is_Some (Demo.job !! "work") /\
  is_Some (cargoes Demo.nested !! 0) /\
  Forall (live Demo.nested) (drop 1 (contexts Demo.nested)) /\
  finalizers_return Demo.nested /\
  exists st',
    _transitionTo "@current" 0 Demo.nested = Ok true st' /\
    contexts st' = [0] /\
    objects st' = objects Demo.nested /\
    trace st' = [ObsRun AtFinalize 1 "job" "@finalize" (finalizeEvent 1) [0; 1];
                 ObsOnTransition "work" "work" 0;
                 ObsUpdateContexts; ObsUpdateContexts].
Proof.
  assert (Hlive : Forall (live Demo.nested) (drop 1 (contexts Demo.nested))).
  { repeat constructor. exists (mkContext "job" "work" 1), Demo.job.
    split; [reflexivity|]. split; [reflexivity|]. now exists 5. }
  destruct (Demo.job !! "work") as [state|] eqn:Hstate; [|discriminate].
  split; [reflexivity|]. split; [reflexivity|]. split; [reflexivity|].
  split; [now exists state|]. split; [now exists 3|]. split; [exact Hlive|].
  split; [exact demo_finalizers_return|].
  destruct (transitionTo_current_reenters Demo.nested 0 0 (mkContext "job" "work" 0)
              Demo.job state)
    as [(st' & H & Hc & _ & Ho & Ht) _].
  - reflexivity.
  - reflexivity.
  - reflexivity.
  - exact Hstate.
  - now exists 3.
  - exact Hlive.
  - exact demo_finalizers_return.
  - injection Hstate as <-. intros f to from v [= <-]. reflexivity.
  - injection Hstate as <-. exists st'. repeat split; assumption.
Defined.

Lemma pushContext_enters_witness :
  systems Demo.automata !! "job" = Some Demo.job /\
  is_Some (Demo.job !! "@start") /\
  exists st',
    pushContext "job" Demo.automata = Ok tt st' /\
    contexts st' = [0] /\
    objects st' = [mkContext "job" "@start" 0] /\
    cargoes st' = [8] /\
    trace st' = [ObsOnTransition "job" "@start" 0; ObsUpdateContexts] /\
    events st' = [entered "job"].
Proof.
  destruct (Demo.job !! "@start") as [start|] eqn:Hstart; [|discriminate].
  split; [reflexivity|]. split; [now exists start|].
  destruct (pushContext_enters Demo.automata "job" Demo.job start)
    as (st' & H & Hc & Ho & _ & _ & _ & Hv & Ht & He).
  - reflexivity.
  - exact Hstart.
  - injection Hstart as <-. intros f [= <-]. reflexivity.
  - injection Hstart as <-. exists st'. repeat split; assumption.
Defined.


Lemma queue_is_fifo_witness :
  events Demo.nested = [] /\
  yields (trace (calls 2 (res_state (forEach pushEvent [None; Some Demo.done] Demo.nested)))) =
  [emptyEvent; Demo.done].
Proof.
  split; [reflexivity|].
  exact (proj2 (proj2 (proj2 (proj2 queue_is_fifo)))
           [None; Some Demo.done] Demo.nested eq_refl).
Defined.

Lemma reachable_ordinary_witness :
  reachable (res_state (pushContext "job" Demo.automata)) /\
  objects (res_state (pushContext "job" Demo.automata)) !! 0 =
    Some (mkContext "job" "@start" 0) /\
  currentState (mkContext "job" "@start" 0) <> "@end" /\
  currentState (mkContext "job" "@start" 0) <> "@current" /\
  startsWithHash (currentState (mkContext "job" "@start" 0)) = false.
Proof.
  assert (Hr : reachable (res_state (pushContext "job" Demo.automata)))
    by (apply reach_pushContext, reach_new; reflexivity).
  split; [exact Hr|]. split; [reflexivity|].
  exact (reachable_ordinary _ Hr 0 (mkContext "job" "@start" 0) eq_refl).
Defined.

Lemma transition_event_needs_data_witness :
  events (set_events (fun _ => [Demo.untargeted]) Demo.nested) = Demo.untargeted :: [] /\
  contexts (set_events (fun _ => [Demo.untargeted]) Demo.nested) = 0 :: [1] /\
  data Demo.untargeted = None /\
  fieldIs (type Demo.untargeted) "automata" && fieldIs (name Demo.untargeted) "transition"
    = true /\
  do (set_events (fun _ => [Demo.untargeted]) Demo.nested) =
    Some (Throw TypeError (observe (ObsYield Demo.untargeted) Demo.nested)).
Proof.
  split; [reflexivity|]. split; [reflexivity|]. split; [reflexivity|].
  split; [reflexivity|].
  destruct (proj1 (transition_event_needs_data
                     (set_events (fun _ => [Demo.untargeted]) Demo.nested)
                     Demo.untargeted [] 0 [1] eq_refl eq_refl eq_refl) eq_refl)
    as (e & H & He).
  rewrite H. now rewrite He by now eexists.
Defined.

(** A finalizer that throws: the other finalizers have run all the same,
    and the stack is whole. *)
Example removeDescendants_failure :
  exists st',
    _removeDescendants 0 false Demo.brittle = Throw HandlerError st' /\
    contexts st' = [0; 1; 2] /\
    cargoes st' = [1; 3; 0] /\
    trace st' = [ObsRun AtFinalize 1 "fragile" "@finalize" (finalizeEvent 1) [0; 1; 2];
                 ObsRun AtFinalize 2 "job" "@finalize" (finalizeEvent 2) [0; 1; 2]].
Proof. eexists. split; [vm_compute; reflexivity|]. now vm_compute. Qed.

(** The README's run: [main] starts, enters [sub], and [sub] ends. *)
Example readme_scenario :
  let booted :=
    res_state (forEach pushEvent [None; None; None]
                 (res_state (pushContext "main" Readme.automata))) in
  (fun k => view (calls k booted)) <$> [0; 1; 2; 3; 4] =
  [ [mkContext "main" "@start" 0];
    [mkContext "main" "state1" 0];
    [mkContext "main" "state1" 0; mkContext "sub" "@start" 1];
    [mkContext "main" "state1" 0; mkContext "sub" "sub-state" 1];
    [mkContext "main" "state1" 0] ].
Proof. vm_compute. reflexivity. Qed.

(** C9, as stated, fails: a handler that returns ["@finalize"] puts its
    context in the state of that name, which is neither ["@start"] nor an
    ordinary name. *)
Lemma finalize_becomes_current :
  reachable Demo.hastened /\
  objects Demo.hastened !! 0 = Some (mkContext "hasty" "@finalize" 0) /\
  ~ start_or_ordinary Demo.hastened.
Proof.
  split; [|split].
  - unfold Demo.hastened. cbn [calls].
    destruct (do _) as [r|] eqn:Hdo.
    + eapply reach_do; [|exact Hdo]. apply reach_pushContext, reach_new; reflexivity.
    + apply reach_pushContext, reach_new; reflexivity.
  - vm_compute. reflexivity.
  - intros H. destruct (H 0 (mkContext "hasty" "@finalize" 0)) as [E | (_ & E & _)].
    + vm_compute. reflexivity.
    + discriminate E.
    + now apply E.
Qed.

(** * More of the engine *)

Section More.

Context {Cargo : Type}.
Implicit Types (st : Automata Cargo) (context child top : ref) (c : Context).

(** ** Truncation *)

Lemma findIndex_absent (a : list ref) x : x ∉ a -> findIndex a x = (-1)%Z.
Proof.
  induction a as [|c a IH]; intros Hx; cbn [findIndex]; [reflexivity|].
  apply not_elem_of_cons in Hx as [Hne Hx].
  destruct (Nat.eqb_spec c x); [congruence|].
  now rewrite IH.
Qed.

Lemma findIndex_first (a : list ref) x i :
  findIndex a x = Z.of_nat i -> x ∉ take i a.
Proof.
  revert i. induction a as [|c a IH]; intros i; cbn [findIndex].
  - intros _. rewrite take_nil. apply not_elem_of_nil.
  - destruct (Nat.eqb_spec c x) as [->|Hne].
    + intros H. replace i with 0%nat by lia. apply not_elem_of_nil.
    + destruct (Z.ltb_spec (findIndex a x) 0) as [Hlt|Hge]; [lia|].
      intros H. destruct i as [|i]; [lia|]. cbn [take].
      apply not_elem_of_cons. split; [congruence|]. apply IH. lia.
Qed.

Lemma findIndex_take (a : list ref) x i :
  findIndex a x = Z.of_nat i -> findIndex (take (S i) a) x = Z.of_nat i.
Proof.
  revert i. induction a as [|c a IH]; intros i; cbn [findIndex]; [lia|].
  cbn [take findIndex].
  destruct (Nat.eqb_spec c x) as [->|Hne]; [trivial|].
  destruct (Z.ltb_spec (findIndex a x) 0) as [Hlt|Hge]; [lia|].
  intros H. destruct i as [|i]; [lia|].
  rewrite (IH i) by lia.
  destruct (Z.ltb_spec (Z.of_nat i) 0); lia.
Qed.

(** What [slice] does at the indices [_removeDescendants] computes. *)
Lemma slice_at (a : list ref) x (withSelf : bool) i :
  findIndex a x = Z.of_nat i ->
  sliceTo a (findIndex a x + (if withSelf then 0 else 1)) =
    take (i + (if withSelf then 0 else 1)) a /\
  sliceFrom a (findIndex a x + (if withSelf then 0 else 1)) =
    drop (i + (if withSelf then 0 else 1)) a.
Proof.
  intros H. pose proof (findIndex_bounds a x) as B.
  unfold sliceTo, sliceFrom, relativeIndex. rewrite H in *.
  destruct withSelf.
  - destruct (Z.ltb_spec (Z.of_nat i + 0) 0); [lia|].
    now replace (Z.to_nat (Z.min (Z.of_nat i + 0) (Z.of_nat (length a))))
      with (i + 0)%nat by lia.
  - destruct (Z.ltb_spec (Z.of_nat i + 1) 0); [lia|].
    now replace (Z.to_nat (Z.min (Z.of_nat i + 1) (Z.of_nat (length a))))
      with (i + 1)%nat by lia.
Qed.

Lemma slice_absent (a : list ref) x (withSelf : bool) :
  x ∉ a ->
  sliceTo a (findIndex a x + (if withSelf then 0 else 1)) =
    (if withSelf then removelast a else []) /\
  sliceFrom a (findIndex a x + (if withSelf then 0 else 1)) =
    (if withSelf then drop (length a - 1) a else a).
Proof.
  intros H. rewrite (findIndex_absent _ _ H).
  unfold sliceTo, sliceFrom, relativeIndex. destruct withSelf; cbn [Z.add Z.ltb Z.compare Z.opp].
  - change (-1 + 0 <? 0)%Z with true. cbv iota.
    replace (Z.to_nat (Z.max (Z.of_nat (length a) + (-1 + 0)) 0))
      with (length a - 1)%nat by lia.
    split; [|reflexivity].
    rewrite removelast_firstn_len. f_equal. lia.
  - change (-1 + 1 <? 0)%Z with false. cbv iota.
    change (-1 + 1)%Z with 0%Z. rewrite Z.min_l by lia. now cbn.
Qed.

(** Well-formed contexts with finalizers that return are removed. *)
Lemma removeDescendants_returns st context (withSelf : bool) :
  let start := (findIndex (contexts st) context + (if withSelf then 0 else 1))%Z in
  Forall (live st) (sliceFrom (contexts st) start) ->
  finalizers_return st ->
  exists st',
    _removeDescendants context withSelf st = Ok tt st' /\
    contexts st' = sliceTo (contexts st) start /\
    objects st' = objects st /\
    static st st' /\
    length (cargoes st') = length (cargoes st) /\
    trace st' = trace st ++ concat (finalizeRun st <$> sliceFrom (contexts st) start).
Proof.
  intros start Hlive Hfin.
  pose proof (settleAll_untouched (sliceFrom (contexts st) start) st) as U.
  pose proof (settleAll_trace (sliceFrom (contexts st) start) st) as T.
  pose proof (settleAll_returns _ _ Hlive Hfin) as Hnone.
  rewrite removeDescendants_eq. cbv zeta. fold start.
  destruct (settleAll _finalizeContext (sliceFrom (contexts st) start) st) as [o st1].
  cbn [fst snd] in *. subst o. eexists. split; [reflexivity|].
  destruct U as [U1 U2 U3 U4 U5 U6]. cbn. repeat split; assumption.
Qed.

(** X1. A context that is not on the stack has no index, and the indices
    that [_removeDescendants] computes from -1 take everything off the
    stack, or with [withSelf] just its last context; all that is taken off
    is finalized. *)
Theorem removeDescendants_off_stack st context (withSelf : bool) :
  context ∉ contexts st ->
  Forall (live st) (contexts st) ->
  finalizers_return st ->
  exists st',
    _removeDescendants context withSelf st = Ok tt st' /\
    contexts st' = (if withSelf then removelast (contexts st) else []) /\
    objects st' = objects st /\
    trace st' = trace st ++
      concat (finalizeRun st <$>
                (if withSelf then drop (length (contexts st) - 1) (contexts st)
                 else contexts st)).
Proof.
  intros Hx Hlive Hfin.
  destruct (slice_absent (contexts st) context withSelf Hx) as [Hto Hfrom].
  destruct (removeDescendants_returns st context withSelf)
    as (st' & H & Hc & Ho & _ & _ & Ht); [|exact Hfin|].
  - cbv zeta. rewrite Hfrom. destruct withSelf; [now apply Forall_drop | exact Hlive].
  - exists st'. cbv zeta in Hc, Ht. rewrite Hto in Hc. rewrite Hfrom in Ht.
    now repeat split.
Qed.

(** X2. With [withSelf], a context of the stack is taken off the stack
    together with the contexts above it, and is the first to be
    finalized. *)
Theorem removeDescendants_with_self st context i :
  findIndex (contexts st) context = Z.of_nat i ->
  Forall (live st) (drop i (contexts st)) ->
  finalizers_return st ->
  exists st' above,
    _removeDescendants context true st = Ok tt st' /\
    contexts st' = take i (contexts st) /\
    (context ∉ contexts st') /\
    drop i (contexts st) = context :: above /\
    trace st' = trace st ++ finalizeRun st context ++ concat (finalizeRun st <$> above).
Proof.
  intros Hidx Hlive Hfin.
  destruct (slice_at (contexts st) context true i Hidx) as [Hto Hfrom].
  rewrite Nat.add_0_r in Hto, Hfrom.
  destruct (removeDescendants_returns st context true)
    as (st' & H & Hc & Ho & _ & _ & Ht); [|exact Hfin|].
  - cbv zeta. now rewrite Hfrom.
  - cbv zeta in Hc, Ht. rewrite Hto in Hc. rewrite Hfrom in Ht.
    pose proof (findIndex_lookup _ _ _ Hidx) as Hi.
    exists st', (drop (S i) (contexts st)).
    assert (Hd : drop i (contexts st) = context :: drop (S i) (contexts st))
      by now apply drop_S.
    split; [exact H|]. split; [exact Hc|]. split.
    + rewrite Hc. now apply findIndex_first.
    + split; [exact Hd|]. now rewrite Ht, Hd.
Qed.

(** X3. Removing the descendants of a context a second time does nothing:
    the second call returns in the state the first one left. *)
Theorem removeDescendants_idempotent st context st' :
  _removeDescendants context false st = Ok tt st' ->
  _removeDescendants context false st' = Ok tt st'.
Proof.
  rewrite removeDescendants_eq. cbv zeta.
  pose proof (settleAll_untouched
                (sliceFrom (contexts st) (findIndex (contexts st) context + 1)) st) as U.
  destruct (settleAll _ _ st) as [[e|] st1]; [discriminate|].
  cbn [snd] in U. intros [= <-].
  rewrite removeDescendants_eq. cbv zeta. cbn [contexts set_contexts].
  set (cs := contexts st).
  assert (Hcut : sliceFrom (sliceTo cs (findIndex cs context + 1))
                   (findIndex (sliceTo cs (findIndex cs context + 1)) context + 1) = [] /\
                 sliceTo (sliceTo cs (findIndex cs context + 1))
                   (findIndex (sliceTo cs (findIndex cs context + 1)) context + 1) =
                 sliceTo cs (findIndex cs context + 1)).
  { pose proof (findIndex_bounds cs context) as B.
    destruct (Z_lt_le_dec (findIndex cs context) 0) as [Hneg|Hpos].
    - replace (findIndex cs context) with (-1)%Z by lia.
      assert (Hnil : sliceTo cs (-1 + 1) = []).
      { unfold sliceTo, relativeIndex. change (-1 + 1 <? 0)%Z with false.
        cbv iota. change (-1 + 1)%Z with 0%Z. now rewrite Z.min_l by lia. }
      rewrite Hnil. now cbn.
    - assert (Hi : findIndex cs context = Z.of_nat (Z.to_nat (findIndex cs context)))
        by lia.
      set (i := Z.to_nat (findIndex cs context)) in *.
      destruct (slice_at cs context false i Hi) as [Hto _].
      replace (i + 1)%nat with (S i) in Hto by lia. cbv iota in Hto. rewrite Hto.
      pose proof (findIndex_take cs context i Hi) as Hi'.
      destruct (slice_at (take (S i) cs) context false i Hi') as [Hto' Hfrom'].
      cbv iota in Hto', Hfrom'. rewrite Hto', Hfrom'.
      replace (i + 1)%nat with (S i) by lia.
      split; [apply drop_ge; rewrite length_take; lia|].
      apply take_ge. rewrite length_take. lia. }
  destruct Hcut as [-> ->]. reflexivity.
Qed.

(** ** Entering and moving *)

(** [pushContext] up to the lookup of the [@start] state. *)
Lemma pushContext_allocates st systemName :
  pushContext systemName st =
  bind (systemOf systemName) (fun sys =>
    bind (stateOf sys "@start") (fun start =>
      bind (callOnTransition (onTransitionHandler start) systemName "@start" (length (cargoes st)))
        (fun _ => bind _onUpdateContexts (fun _ => pushEvent (Some (entered systemName))))))
    (set_contexts (fun cs => cs ++ [length (objects st)])
       (set_objects (fun h => h ++ [mkContext systemName "@start" (length (cargoes st))])
          (set_cargoes (fun h => h ++ [CargoClass st]) st))).
Proof. reflexivity. Qed.

(** [pushContext] for a system that can be entered. *)
Lemma pushContext_returns st systemName sys start :
  systems st !! systemName = Some sys ->
  sys !! "@start" = Some start ->
  (forall f v, onTransitionHandler start = Some f ->
               eff_completion (f systemName "@start" v) = Returns tt) ->
  exists st',
    pushContext systemName st = Ok tt st' /\
    contexts st' = contexts st ++ [length (objects st)] /\
    objects st' = objects st ++ [mkContext systemName "@start" (length (cargoes st))] /\
    length (cargoes st') = Datatypes.S (length (cargoes st)) /\
    static st st' /\
    trace st' = trace st ++
      from_option (fun _ => [ObsOnTransition systemName "@start" (length (cargoes st))])
                  [] (onTransitionHandler start) ++ hooked st /\
    last (events st') = Some (entered systemName).
Proof.
  intros Hsys Hstart Hret. rewrite pushContext_allocates.
  assert (Hnew : (cargoes st ++ [CargoClass st]) !! length (cargoes st)
                 = Some (CargoClass st)) by apply list_lookup_middle, eq_refl.
  destruct (onTransitionHandler start) as [f|] eqn:Hf.
  - eexists. split.
    + do 2 exec. rewrite Hf.
      exec_with ltac:(apply (callOnTransition_Ok _ _ _ _ (CargoClass st));
                      [exact Hnew | now apply Hret]).
      exec. reflexivity.
    + unfold hooked. cbn. destruct (onUpdateContexts st); cbn;
        rewrite ?length_insert, ?length_app, ?last_snoc;
        repeat split; cbn; try lia;
        rewrite <- ?List.app_assoc, ?app_nil_r; reflexivity.
  - eexists. split.
    + do 2 exec. rewrite Hf. do 2 exec. reflexivity.
    + unfold hooked. cbn. destruct (onUpdateContexts st); cbn;
        rewrite ?length_app, ?last_snoc;
        repeat split; cbn; try lia;
        rewrite <- ?List.app_assoc, ?app_nil_r; reflexivity.
Qed.

(** X4. [pushContext] for a name that is not registered, or for a system
    without a [@start] state, throws a TypeError when the context is on
    the stack already: it is left there, with its cargo made, and neither
    an observer nor the hook has run, nor is there an [entered] event. *)
Theorem pushContext_unregistered st systemName :
  (forall sys, systems st !! systemName = Some sys -> sys !! "@start" = None) ->
  exists st',
    pushContext systemName st = Throw TypeError st' /\
    contexts st' = contexts st ++ [length (objects st)] /\
    objects st' = objects st ++ [mkContext systemName "@start" (length (cargoes st))] /\
    cargoes st' = cargoes st ++ [CargoClass st] /\
    events st' = events st /\
    trace st' = trace st.
Proof.
  intros Hno. rewrite pushContext_allocates. eexists. split.
  - unfold bind at 1, systemOf. cbn [systems set_contexts set_objects set_cargoes].
    destruct (systems st !! systemName) as [sys|] eqn:Hsys; [|reflexivity].
    unfold bind at 1, stateOf. now rewrite (Hno sys eq_refl).
  - now repeat split.
Qed.

(** The two steps that enter a system under a context of the stack. *)
Lemma enter_returns st context i systemName sys start :
  findIndex (contexts st) context = Z.of_nat i ->
  Forall (live st) (drop (S i) (contexts st)) ->
  finalizers_return st ->
  systems st !! systemName = Some sys ->
  sys !! "@start" = Some start ->
  (forall f v, onTransitionHandler start = Some f ->
               eff_completion (f systemName "@start" v) = Returns tt) ->
  exists st2 st',
    _removeDescendants context false st = Ok tt st2 /\
    pushContext systemName st2 = Ok tt st' /\
    contexts st' = take (S i) (contexts st) ++ [length (objects st)] /\
    objects st' = objects st ++ [mkContext systemName "@start" (length (cargoes st))] /\
    onUpdateContexts st' = onUpdateContexts st /\
    trace st' = trace st ++
      concat (finalizeRun st <$> drop (S i) (contexts st)) ++
      from_option (fun _ => [ObsOnTransition systemName "@start" (length (cargoes st))])
                  [] (onTransitionHandler start) ++ hooked st /\
    last (events st') = Some (entered systemName).
Proof.
  intros Hidx Hlive Hfin Hsys Hstart Hobs.
  destruct (slice_at (contexts st) context false i Hidx) as [Hto Hfrom].
  cbv iota in Hto, Hfrom. replace (i + 1)%nat with (S i) in Hto, Hfrom by lia.
  destruct (removeDescendants_returns st context false)
    as (st2 & H2 & Hc2 & Ho2 & [Hs2 Hh2 Hk2] & Hl2 & Ht2); [|exact Hfin|].
  { cbv zeta. now rewrite Hfrom. }
  cbv zeta in Hc2, Ht2. rewrite Hto in Hc2. rewrite Hfrom in Ht2.
  destruct (pushContext_returns st2 systemName sys start)
    as (st3 & H3 & Hc3 & Ho3 & Hl3 & [Hs3 Hh3 Hk3] & Ht3 & He3).
  { now rewrite Hs2. }
  { exact Hstart. }
  { exact Hobs. }
  exists st2, st3. split; [exact H2|]. split; [exact H3|].
  rewrite Hc3, Ho3, Ht3, Hc2, Ho2, Ht2, Hl2, Hh3, Hh2.
  unfold hooked. rewrite Hh2.
  repeat split; try assumption. now rewrite <- !List.app_assoc.
Qed.

(** X5. A context of the stack asks for ["#S"], [S] a registered system
    with a [@start] state; the slot above the context holds no context of
    system [S]; the contexts above are well-formed, and their finalizers
    and the [@start] observer of [S] return.  Then [_transitionTo] returns
    [true]; the contexts above are finalized and taken off the stack and a
    new context of [S], in state [@start], is put right above the asking
    one; the [entered] event of [S] is the last of the queue; and the hook
    is notified twice, by [pushContext] and by [_transitionTo]. *)
Theorem transitionTo_child_enters st context i c systemName sys start :
  findIndex (contexts st) context = Z.of_nat i ->
  objects st !! context = Some c ->
  String "#" systemName <> currentState c ->
  systemName <> "@current" ->
  (forall child, contexts st !! S i = Some child ->
                 systemAt st child <> Some systemName) ->
  Forall (live st) (drop (S i) (contexts st)) ->
  finalizers_return st ->
  systems st !! systemName = Some sys ->
  sys !! "@start" = Some start ->
  (forall f v, onTransitionHandler start = Some f ->
               eff_completion (f systemName "@start" v) = Returns tt) ->
  exists st',
    _transitionTo (String "#" systemName) context st = Ok true st' /\
    contexts st' = take (S i) (contexts st) ++ [length (objects st)] /\
    objects st' = objects st ++ [mkContext systemName "@start" (length (cargoes st))] /\
    trace st' = trace st ++
      concat (finalizeRun st <$> drop (S i) (contexts st)) ++
      from_option (fun _ => [ObsOnTransition systemName "@start" (length (cargoes st))])
                  [] (onTransitionHandler start) ++ hooked st ++ hooked st /\
    last (events st') = Some (entered systemName).
Proof.
  intros Hidx Hc Hne Hcur Hchild Hlive Hfin Hsys Hstart Hobs.
  destruct (enter_returns st context i systemName sys start)
    as (st2 & st' & H2 & H & Hcs & Hos & Hh & Ht & He); try assumption.
  apply String.eqb_neq in Hne, Hcur.
  exists (if onUpdateContexts st' then observe ObsUpdateContexts st' else st').
  split.
  - unfold _transitionTo.
    change (String.eqb (String "#" systemName) "@end") with false.
    change (String.eqb (String "#" systemName) "@current") with false.
    cbv iota. exec. rewrite Hne. cbn [startsWithHash slice1]. cbv zeta.
    exec. rewrite Hcur, Hidx. unfold at_index.
    replace (Z.of_nat i + 1 <? 0)%Z with false by lia.
    replace (Z.to_nat (Z.of_nat i + 1)) with (S i) by lia.
    destruct (contexts st !! S i) as [child|] eqn:Hch.
    + assert (Hl : live st child).
      { eapply Forall_forall; [exact Hlive|].
        apply list_elem_of_lookup. exists 0%nat. now rewrite lookup_drop, Nat.add_0_r. }
      destruct Hl as (ch & sysc & Hobj & _).
      specialize (Hchild child eq_refl). unfold systemAt in Hchild. rewrite Hobj in Hchild.
      assert (Hneq : String.eqb systemName (system ch) = false).
      { apply String.eqb_neq. cbn in Hchild. congruence. }
      exec. rewrite Hneq. exec. exec_with ltac:(exact H2). exec_with ltac:(exact H).
      exec. exec. reflexivity.
    + exec. exec_with ltac:(exact H2). exec_with ltac:(exact H).
      exec. exec. reflexivity.
  - rewrite Hh. unfold hooked in *.
    destruct (onUpdateContexts st); cbn; rewrite Ht;
      repeat split; try assumption; rewrite <- ?List.app_assoc, ?app_nil_r; reflexivity.
Qed.

(** X6. ["#@current"] enters a new context of the asking context's own
    system, and does so whatever the slot above holds: there is no check
    as for ["#S"]. *)
Theorem transitionTo_own_system_enters st context i c sys start :
  findIndex (contexts st) context = Z.of_nat i ->
  objects st !! context = Some c ->
  "#@current" <> currentState c ->
  Forall (live st) (drop (S i) (contexts st)) ->
  finalizers_return st ->
  systems st !! system c = Some sys ->
  sys !! "@start" = Some start ->
  (forall f v, onTransitionHandler start = Some f ->
               eff_completion (f (system c) "@start" v) = Returns tt) ->
  exists st',
    _transitionTo "#@current" context st = Ok true st' /\
    contexts st' = take (S i) (contexts st) ++ [length (objects st)] /\
    objects st' = objects st ++ [mkContext (system c) "@start" (length (cargoes st))] /\
    last (events st') = Some (entered (system c)).
Proof.
  intros Hidx Hc Hne Hlive Hfin Hsys Hstart Hobs.
  destruct (enter_returns st context i (system c) sys start)
    as (st2 & st' & H2 & H & Hcs & Hos & Hh & Ht & He); try assumption.
  apply String.eqb_neq in Hne.
  exists (if onUpdateContexts st' then observe ObsUpdateContexts st' else st').
  split.
  - unfold _transitionTo.
    change (String.eqb "#@current" "@end") with false.
    change (String.eqb "#@current" "@current") with false.
    cbv iota. exec. rewrite Hne. cbn [startsWithHash slice1]. cbv zeta.
    exec. change (String.eqb "@current" "@current") with true. cbv iota.
    exec. exec_with ltac:(exact H2). exec_with ltac:(exact H).
      exec. exec. reflexivity.
  - destruct (onUpdateContexts st'); cbn; now repeat split.
Qed.

(** A context of the stack moves to another state of its system. *)
Lemma state_moves st context i c sys state stateName :
  findIndex (contexts st) context = Z.of_nat i ->
  objects st !! context = Some c ->
  stateName <> "@end" ->
  stateName <> "@current" ->
  stateName <> currentState c ->
  startsWithHash stateName = false ->
  systems st !! system c = Some sys ->
  sys !! stateName = Some state ->
  is_Some (cargoes st !! cargo c) ->
  Forall (live st) (drop (S i) (contexts st)) ->
  finalizers_return st ->
  (forall f to from v, onTransitionHandler state = Some f ->
     eff_completion (f to from v) = Returns tt) ->
  exists st',
    _transitionTo stateName context st = Ok true st' /\
    contexts st' = take (S i) (contexts st) /\
    objects st' !! context = Some (mkContext (system c) stateName (cargo c)) /\
    (forall other, other <> context -> objects st' !! other = objects st !! other) /\
    trace st' = trace st ++
      concat (finalizeRun st <$> drop (S i) (contexts st)) ++
      from_option (fun _ => [ObsOnTransition stateName (currentState c) (cargo c)])
                  [] (onTransitionHandler state) ++
      hooked st.
Proof.
  intros Hidx Hc Hend Hcur Hne Hhash Hsys Hstate Hv Hlive Hfin Hobs.
  apply String.eqb_neq in Hend, Hcur, Hne.
  destruct (slice_at (contexts st) context false i Hidx) as [Hto Hfrom].
  cbv iota in Hto, Hfrom. replace (i + 1)%nat with (S i) in Hto, Hfrom by lia.
  destruct (removeDescendants_returns st context false)
    as (st2 & H2 & Hc2 & Ho2 & [Hs2 Hh2 Hk2] & Hl2 & Ht2); [|exact Hfin|].
  { cbv zeta. now rewrite Hfrom. }
  cbv zeta in Hc2, Ht2. rewrite Hto in Hc2. rewrite Hfrom in Ht2.
  assert (Hobj2 : objects st2 !! context = Some c) by now rewrite Ho2.
  assert (Hsys2 : systems st2 !! system c = Some sys) by now rewrite Hs2.
  assert (Hv2 : is_Some (cargoes st2 !! cargo c)).
  { apply lookup_lt_is_Some. rewrite Hl2. now apply lookup_lt_is_Some. }
  destruct Hv2 as [v2 Hv2].
  assert (Hin : objects st !! context = Some c) by exact Hc.
  assert (Halter : forall (h : list Context),
            h !! context = Some c ->
            alter (fun o => mkContext (system o) stateName (cargo o)) context h !! context
              = Some (mkContext (system c) stateName (cargo c))).
  { intros h Hh. rewrite list_lookup_alter_eq. unfold ref in *. now rewrite Hh. }
  destruct (onTransitionHandler state) as [f|] eqn:Hf.
  - eexists. split.
    + unfold _transitionTo. rewrite Hend, Hcur.
      exec. rewrite Hne, Hhash.
      exec_with ltac:(exact H2). do 3 exec. rewrite Hf.
      exec_with ltac:(apply (callOnTransition_Ok _ _ _ _ v2); [exact Hv2 | now eapply Hobs]).
      do 3 exec. reflexivity.
    + unfold hooked. cbn. rewrite Hh2.
      destruct (onUpdateContexts st); cbn; rewrite Ht2, Ho2;
        (split; [exact Hc2|]); (split; [now apply Halter|]);
        (split; [intros other Hother; now apply list_lookup_alter_ne|]);
        rewrite <- ?List.app_assoc, ?app_nil_r; reflexivity.
  - eexists. split.
    + unfold _transitionTo. rewrite Hend, Hcur.
      exec. rewrite Hne, Hhash.
      exec_with ltac:(exact H2). do 3 exec. rewrite Hf.
      do 4 exec. reflexivity.
    + unfold hooked. cbn. rewrite Hh2.
      destruct (onUpdateContexts st); cbn; rewrite Ht2, Ho2;
        (split; [exact Hc2|]); (split; [now apply Halter|]);
        (split; [intros other Hother; now apply list_lookup_alter_ne|]);
        rewrite <- ?List.app_assoc, ?app_nil_r; reflexivity.
Qed.

(** X7. A context of the stack asks for a state of its system other than
    the one it is in, by a name that is no token; the contexts above are
    well-formed, and their finalizers and the observer of the new state
    return.  Then [_transitionTo] returns [true]; the contexts above are
    finalized and taken off the stack; the observer of the new state is
    called with the new and the old state before the context changes
    state; the context is then in the new state, with the system and the
    cargo it had, and no other context object has changed; the hook is
    notified once. *)
Theorem transitionTo_state_moves st context i c sys state stateName :
  findIndex (contexts st) context = Z.of_nat i ->
  objects st !! context = Some c ->
  stateName <> "@end" ->
  stateName <> "@current" ->
  stateName <> currentState c ->
  startsWithHash stateName = false ->
  systems st !! system c = Some sys ->
  sys !! stateName = Some state ->
  is_Some (cargoes st !! cargo c) ->
  Forall (live st) (drop (S i) (contexts st)) ->
  finalizers_return st ->
  (forall f to from v, onTransitionHandler state = Some f ->
     eff_completion (f to from v) = Returns tt) ->
  exists st',
    _transitionTo stateName context st = Ok true st' /\
    contexts st' = take (S i) (contexts st) /\
    objects st' !! context = Some (mkContext (system c) stateName (cargo c)) /\
    (forall other, other <> context -> objects st' !! other = objects st !! other) /\
    trace st' = trace st ++
      concat (finalizeRun st <$> drop (S i) (contexts st)) ++
      from_option (fun _ => [ObsOnTransition stateName (currentState c) (cargo c)])
                  [] (onTransitionHandler state) ++
      hooked st.
Proof. apply state_moves. Qed.

(** ** Ending *)

(** A finalizer that throws. *)
Lemma finalizeContext_throws st context c sys state :
  objects st !! context = Some c ->
  systems st !! system c = Some sys ->
  sys !! "@finalize" = Some state ->
  is_Some (cargoes st !! cargo c) ->
  (forall event v stack, eff_completion (handler state event v stack) = Throws) ->
  exists st',
    _finalizeContext context st = Throw HandlerError st' /\
    untouched st st' /\
    trace st' = trace st ++
      [ObsRun AtFinalize context (system c) "@finalize" (finalizeEvent context) (contexts st)].
Proof.
  intros Hc Hsys Hstate [v Hv] Hthrow.
  eexists. split; [|split].
  - unfold _finalizeContext. do 2 exec. rewrite Hstate. cbv zeta.
    unfold bind at 1. rewrite (run_eq _ _ _ _ _ _ _ v) by exact Hv. cbv zeta.
    unfold completes. rewrite Hthrow. reflexivity.
  - split; cbn; try reflexivity. apply length_insert.
  - reflexivity.
Qed.

(** X8. ["@end"] pops the top of the stack, whichever context asks for it:
    the [@end] handler that runs is that of the asking context's system,
    on the asking context's cargo; the context that leaves the stack and
    is finalized is the top one.  A context that asks from below stays. *)
Theorem transitionTo_end_pops_the_top st context c sys top ct syst below :
  objects st !! context = Some c ->
  systems st !! system c = Some sys ->
  is_Some (cargoes st !! cargo c) ->
  (forall state event v stack, sys !! "@end" = Some state ->
     exists x, eff_completion (handler state event v stack) = Returns x) ->
  contexts st = below ++ [top] ->
  objects st !! top = Some ct ->
  systems st !! system ct = Some syst ->
  is_Some (cargoes st !! cargo ct) ->
  (forall state event v stack, syst !! "@finalize" = Some state ->
     exists x, eff_completion (handler state event v stack) = Returns x) ->
  exists st',
    _transitionTo "@end" context st = Ok true st' /\
    contexts st' = below /\
    objects st' = objects st /\
    trace st' = trace st ++
      from_option (fun _ => [ObsRun AtEnd context (system c) "@end"
                                    (endEvent context) (contexts st)])
                  [] (sys !! "@end") ++
      from_option (fun _ => [ObsRun AtFinalize top (system ct) "@finalize"
                                    (finalizeEvent top) below])
                  [] (syst !! "@finalize") ++
      hooked st.
Proof.
  intros Hc Hsys [v Hv] Hend Hstack Hct Hsyst Hvt Hfin.
  destruct (run_if_defined AtEnd context (system c) "@end"
              (sys !! "@end") (endEvent context) (cargo c) v st Hv)
    as (st1 & Hrun1 & U1 & F1 & T1); [now eauto|].
  pose (st2 := set_contexts (fun cs => removelast cs) st1).
  assert (Hbelow : contexts st2 = below).
  { cbn. rewrite (untouched_contexts _ _ U1), Hstack. apply removelast_last. }
  destruct (finalizeContext_returns st2 top ct syst) as (st3 & Hrun3 & U3 & F3 & T3).
  { cbn. now rewrite (untouched_objects _ _ U1). }
  { cbn. now rewrite (untouched_systems _ _ U1). }
  { cbn. apply lookup_lt_is_Some. rewrite (untouched_cargoes _ _ U1).
    now apply lookup_lt_is_Some. }
  { exact Hfin. }
  exists (if onUpdateContexts st3 then observe ObsUpdateContexts st3 else st3).
  split.
  - unfold _transitionTo.
    change (String.eqb "@end" "@end") with true. cbv iota.
    do 2 exec. exec_with ltac:(exact Hrun1). exec.
    cbn [contexts]. rewrite (untouched_contexts _ _ U1), Hstack, last_snoc.
    exec_with ltac:(exact Hrun3). exec. reflexivity.
  - assert (Hhook : onUpdateContexts st3 = onUpdateContexts st).
    { rewrite (untouched_hook _ _ U3). cbn. apply (untouched_hook _ _ U1). }
    assert (Hcs : contexts st3 = below) by now rewrite (untouched_contexts _ _ U3).
    unfold hooked. rewrite Hhook.
    destruct (onUpdateContexts st); cbn; rewrite T3, Hbelow; cbn; rewrite T1;
      (split; [exact Hcs|]);
      (split; [rewrite (untouched_objects _ _ U3); cbn; apply (untouched_objects _ _ U1)|]);
      rewrite <- ?List.app_assoc, ?app_nil_r; reflexivity.
Qed.

(** X9. ["@end"] on an empty stack: the [@end] handler of the asking
    context's system runs all the same, then [pop] has nothing to give and
    [_transitionTo] returns [false], without a finalizer and without the
    hook. *)
Theorem transitionTo_end_of_nothing st context c sys :
  contexts st = [] ->
  objects st !! context = Some c ->
  systems st !! system c = Some sys ->
  is_Some (cargoes st !! cargo c) ->
  (forall state event v stack, sys !! "@end" = Some state ->
     exists x, eff_completion (handler state event v stack) = Returns x) ->
  exists st',
    _transitionTo "@end" context st = Ok false st' /\
    contexts st' = [] /\
    trace st' = trace st ++
      from_option (fun _ => [ObsRun AtEnd context (system c) "@end" (endEvent context) []])
                  [] (sys !! "@end").
Proof.
  intros Hstack Hc Hsys [v Hv] Hend.
  destruct (run_if_defined AtEnd context (system c) "@end"
              (sys !! "@end") (endEvent context) (cargo c) v st Hv)
    as (st1 & Hrun1 & U1 & F1 & T1); [now eauto|].
  exists (set_contexts (fun cs => removelast cs) st1). split.
  - unfold _transitionTo.
    change (String.eqb "@end" "@end") with true. cbv iota.
    do 2 exec. exec_with ltac:(exact Hrun1). exec.
    cbn [contexts]. rewrite (untouched_contexts _ _ U1), Hstack. cbn [last].
    exec. reflexivity.
  - cbn. rewrite (untouched_contexts _ _ U1), Hstack, T1, Hstack. now split.
Qed.

(** X10. ["@end"] pops before it finalizes.  When the [@finalize] handler
    of the popped context throws, [_transitionTo] throws, and the context
    is off the stack all the same; the hook has not been notified. *)
Theorem transitionTo_end_finalizer_throws st context c sys top ct syst fin below :
  objects st !! context = Some c ->
  systems st !! system c = Some sys ->
  is_Some (cargoes st !! cargo c) ->
  (forall state event v stack, sys !! "@end" = Some state ->
     exists x, eff_completion (handler state event v stack) = Returns x) ->
  contexts st = below ++ [top] ->
  objects st !! top = Some ct ->
  systems st !! system ct = Some syst ->
  is_Some (cargoes st !! cargo ct) ->
  syst !! "@finalize" = Some fin ->
  (forall event v stack, eff_completion (handler fin event v stack) = Throws) ->
  exists st',
    _transitionTo "@end" context st = Throw HandlerError st' /\
    contexts st' = below /\
    last (trace st') =
      Some (ObsRun AtFinalize top (system ct) "@finalize" (finalizeEvent top) below).
Proof.
  intros Hc Hsys [v Hv] Hend Hstack Hct Hsyst Hvt Hfin Hthrow.
  destruct (run_if_defined AtEnd context (system c) "@end"
              (sys !! "@end") (endEvent context) (cargo c) v st Hv)
    as (st1 & Hrun1 & U1 & F1 & T1); [now eauto|].
  pose (st2 := set_contexts (fun cs => removelast cs) st1).
  assert (Hbelow : contexts st2 = below).
  { cbn. rewrite (untouched_contexts _ _ U1), Hstack. apply removelast_last. }
  destruct (finalizeContext_throws st2 top ct syst fin) as (st3 & Hrun3 & U3 & T3).
  { cbn. now rewrite (untouched_objects _ _ U1). }
  { cbn. now rewrite (untouched_systems _ _ U1). }
  { exact Hfin. }
  { cbn. apply lookup_lt_is_Some. rewrite (untouched_cargoes _ _ U1).
    now apply lookup_lt_is_Some. }
  { exact Hthrow. }
  exists st3. split.
  - unfold _transitionTo.
    change (String.eqb "@end" "@end") with true. cbv iota.
    do 2 exec. exec_with ltac:(exact Hrun1). exec.
    cbn [contexts]. rewrite (untouched_contexts _ _ U1), Hstack, last_snoc.
    rewrite !bind_assoc. now rewrite (bind_Throw _ _ _ _ _ Hrun3).
  - split; [now rewrite (untouched_contexts _ _ U3)|].
    rewrite T3, Hbelow. apply last_snoc.
Qed.


(** ** A state that is not there *)



(** ** The hook *)









(** ** What a context is *)

#[global] Instance evolves_pre : PreOrder (@evolves Cargo).
Proof.
  split.
  - intros st context c Hc. now exists c.
  - intros st1 st2 st3 H12 H23 context c Hc.
    destruct (H12 context c Hc) as (c2 & Hc2 & Hs2 & Hk2).
    destruct (H23 context c2 Hc2) as (c3 & Hc3 & Hs3 & Hk3).
    exists c3. repeat split; congruence.
Qed.

Lemma evolves_same st st' : objects st' = objects st -> evolves st st'.
Proof. intros H context c Hc. exists c. now rewrite H. Qed.

Lemma evolves_new c st : evolves st (set_objects (fun h => h ++ [c]) st).
Proof.
  intros context c0 Hc. exists c0. cbn. split; [|now split].
  now apply lookup_app_l_Some.
Qed.

Lemma evolves_state context stateName st :
  evolves st
    (set_objects (alter (fun o => mkContext (system o) stateName (cargo o)) context) st).
Proof.
  intros r c Hc. cbn. destruct (decide (r = context)) as [->|Hne].
  - exists (mkContext (system c) stateName (cargo c)). split; [|now split].
    rewrite list_lookup_alter_eq. unfold ref in *. now rewrite Hc.
  - exists c. split; [|now split]. rewrite list_lookup_alter_ne by congruence. exact Hc.
Qed.

Local Ltac evolves_tac :=
  first [ intros; apply evolves_new | intros; apply evolves_state
        | intros; now apply evolves_same ].

Lemma evolves_pushContext systemName :
  preserves evolves (pushContext (Cargo:=Cargo) systemName).
Proof. apply footprint_pushContext; try apply _; evolves_tac. Qed.

Lemma evolves_transitionTo stateName context :
  preserves evolves (_transitionTo (Cargo:=Cargo) stateName context).
Proof. apply footprint_transitionTo; try apply _; evolves_tac. Qed.

Lemma evolves_do_loop event cs : preserves evolves (do_loop (Cargo:=Cargo) event cs).
Proof. apply footprint_do_loop; try apply _; evolves_tac. Qed.

(** X13. The only field of a context that the engine ever assigns is
    [currentState].  Through [pushContext], through [_transitionTo] and
    through any number of calls of [do], whatever the handlers return or
    throw, every context object that was there is still there, with the
    system and the cargo it was made with; and the registered systems, the
    hook and the cargo class are what they were. *)
Theorem context_keeps_system_and_cargo :
  (forall systemName (st : Automata Cargo),
     evolves st (res_state (pushContext systemName st))) /\
  (forall stateName context (st : Automata Cargo),
     evolves st (res_state (_transitionTo stateName context st))) /\
  (forall n (st : Automata Cargo),
     evolves st (calls n st) /\ static st (calls n st)).
Proof.
  split; [|split].
  - intros systemName st. apply evolves_pushContext.
  - intros stateName context st. apply evolves_transitionTo.
  - induction n as [|n IH]; intros st; cbn [calls]; [split; reflexivity|].
    unfold do. destruct (events st) as [|event rest]; [split; reflexivity|].
    rewrite res_state_dispatch. cbn [contexts set_events].
    set (st0 := observe (ObsYield event) (set_events (fun _ => rest) st)).
    pose proof (evolves_do_loop event (contexts st) st0) as He.
    pose proof (static_do_loop event (contexts st) st0) as Hs.
    destruct (IH (res_state (do_loop event (contexts st) st0))) as [He' Hs'].
    split.
    + transitivity st0; [now apply evolves_same|].
      now transitivity (res_state (do_loop event (contexts st) st0)).
    + transitivity st0; [now split|].
      now transitivity (res_state (do_loop event (contexts st) st0)).
Qed.


(** ** References *)

#[global] Instance keeps_well_formed_pre : PreOrder (@keeps_well_formed Cargo).
Proof. split; [now intros st | intros a b c H1 H2 H; exact (H2 (H1 H))]. Qed.

Lemma sound_cut n st st' :
  objects st' = objects st ->
  length (cargoes st') = length (cargoes st) ->
  contexts st' = take n (contexts st) ->
  keeps_well_formed st st'.
Proof.
  intros Ho Hl Hs [W1 W2 W3 W4]. split; rewrite ?Ho, ?Hl, ?Hs.
  - now apply Forall_take.
  - exact (sublist_NoDup _ _ W2 (sublist_take _ _)).
  - exact W3.
  - exact W4.
Qed.

Lemma sound_untouched st st' : untouched st st' -> keeps_well_formed st st'.
Proof.
  intros [_ Hk Ho _ _ Hl]. apply (sound_cut (length (contexts st))); try assumption.
  now rewrite take_ge.
Qed.

Lemma sound_preserves {A} (m : M Cargo A) :
  preserves untouched m -> preserves keeps_well_formed m.
Proof. intros H st. apply sound_untouched, H. Qed.

Lemma sound_allocate systemName st :
  keeps_well_formed st
    (set_contexts (fun cs => cs ++ [length (objects st)])
       (set_objects (fun h => h ++ [mkContext systemName "@start" (length (cargoes st))])
          (set_cargoes (fun h => h ++ [CargoClass st]) st))).
Proof.
  intros [W1 W2 W3 W4]. split; cbn.
  - rewrite length_app. cbn. apply Forall_app. split.
    + eapply Forall_impl; [exact W1|]. cbn. intros x Hx. lia.
    + apply Forall_singleton. lia.
  - apply NoDup_app. split; [exact W2|]. split; [|apply NoDup_singleton].
    intros x Hx ->%list_elem_of_singleton.
    rewrite Forall_forall in W1. specialize (W1 _ Hx). lia.
  - intros context c Hc. rewrite length_app. cbn.
    apply lookup_snoc_Some in Hc as [[_ Hc]|[_ <-]].
    + specialize (W3 _ _ Hc). lia.
    + cbn. lia.
  - intros r1 r2 c1 c2 H1 H2 Heq.
    apply lookup_snoc_Some in H1 as [[_ H1]|[E1 <-]];
      apply lookup_snoc_Some in H2 as [[_ H2]|[E2 <-]].
    + exact (W4 _ _ _ _ H1 H2 Heq).
    + cbn in Heq. specialize (W3 _ _ H1). lia.
    + cbn in Heq. specialize (W3 _ _ H2). lia.
    + congruence.
Qed.

Lemma sound_state context stateName st :
  keeps_well_formed st
    (set_objects (alter (fun o => mkContext (system o) stateName (cargo o)) context) st).
Proof.
  assert (Hshape : forall r c',
            alter (fun o => mkContext (system o) stateName (cargo o)) context (objects st) !! r
              = Some c' ->
            exists c, objects st !! r = Some c /\ cargo c' = cargo c).
  { intros r c' Hc'. destruct (decide (r = context)) as [->|Hne].
    - rewrite list_lookup_alter_eq in Hc'. unfold ref in *.
      destruct (objects st !! context) as [c|]; [|discriminate].
      injection Hc' as <-. now exists c.
    - rewrite list_lookup_alter_ne in Hc' by congruence. now exists c'. }
  intros [W1 W2 W3 W4]. split; cbn.
  - now rewrite length_alter.
  - exact W2.
  - intros r c' (c & Hc & ->)%Hshape. exact (W3 _ _ Hc).
  - intros r1 r2 c1 c2 (d1 & H1 & E1)%Hshape (d2 & H2 & E2)%Hshape Heq.
    apply (W4 _ _ _ _ H1 H2). congruence.
Qed.

Lemma sound_observe o st : keeps_well_formed st (observe o st).
Proof. apply sound_untouched, untouched_observe. Qed.

Lemma sound_run site context systemName stateName state event cargo :
  preserves keeps_well_formed
    (run (Cargo:=Cargo) site context systemName stateName state event cargo).
Proof. apply sound_preserves, untouched_run. Qed.

Lemma sound_callOnTransition onTransition to from cargo :
  preserves keeps_well_formed (callOnTransition (Cargo:=Cargo) onTransition to from cargo).
Proof. apply sound_preserves, untouched_callOnTransition. Qed.

Lemma sound_onUpdateContexts : preserves keeps_well_formed (@_onUpdateContexts Cargo).
Proof. apply sound_preserves, untouched_onUpdateContexts. Qed.

Lemma sound_pushEvent event : preserves keeps_well_formed (pushEvent (Cargo:=Cargo) event).
Proof. intros st. apply sound_untouched, untouched_push. Qed.

Lemma sound_finalizeContext context :
  preserves keeps_well_formed (_finalizeContext (Cargo:=Cargo) context).
Proof. apply sound_preserves, untouched_finalizeContext. Qed.

Lemma sound_removeDescendants context withSelf :
  preserves keeps_well_formed (_removeDescendants (Cargo:=Cargo) context withSelf).
Proof.
  intros st. rewrite removeDescendants_eq. cbv zeta.
  set (start := (findIndex (contexts st) context + (if withSelf then 0 else 1))%Z).
  pose proof (settleAll_untouched (sliceFrom (contexts st) start) st) as U.
  destruct (settleAll _finalizeContext (sliceFrom (contexts st) start) st) as [[e|] st1];
    cbn in U |- *.
  - now apply sound_untouched.
  - destruct U as [_ Hk Ho _ _ Hl]. now eapply sound_cut.
Qed.

Lemma sound_popContext : preserves keeps_well_formed (@popContext Cargo).
Proof.
  unfold popContext. pres.
  apply (sound_cut (Nat.pred (length (contexts st)))); try reflexivity.
  apply removelast_firstn_len.
Qed.

Lemma sound_pushContext systemName :
  preserves keeps_well_formed (pushContext (Cargo:=Cargo) systemName).
Proof.
  intros st. rewrite pushContext_allocates.
  etransitivity; [apply (sound_allocate systemName)|].
  lazymatch goal with
  | |- keeps_well_formed ?s (res_state (?k ?s)) =>
      cut (preserves keeps_well_formed k); [intros Hk; apply (Hk s)|]
  end.
  pres; [apply sound_callOnTransition | apply sound_onUpdateContexts | apply sound_pushEvent].
Qed.

#[local] Hint Resolve sound_run sound_callOnTransition sound_onUpdateContexts
  sound_pushEvent sound_finalizeContext sound_removeDescendants sound_popContext
  sound_pushContext : pres.

Lemma sound_transitionTo stateName context :
  preserves keeps_well_formed (_transitionTo (Cargo:=Cargo) stateName context).
Proof. unfold _transitionTo. pres. apply sound_state. Qed.

Lemma sound_do_loop event cs :
  preserves keeps_well_formed (do_loop (Cargo:=Cargo) event cs).
Proof.
  induction cs as [|context rest IH]; cbn [do_loop]; pres;
    first [ apply sound_transitionTo | apply sound_observe
          | unfold otherSystem; pres ].
Qed.

(** The references of every state of an automata are sound. *)
Lemma reachable_sound st : reachable st -> well_formed st.
Proof.
  induction 1 as [st Ho Hk| st name sys _ IH | st event _ IH | st systemName _ IH
                 | st context _ IH | st context withSelf _ IH
                 | st stateName context _ IH | st r _ IH Hdo].
  - split; rewrite ?Ho, ?Hk.
    + constructor.
    + constructor.
    + intros context c Hc. now rewrite lookup_nil in Hc.
    + intros r1 r2 c1 c2 H1. now rewrite lookup_nil in H1.
  - destruct IH. now split.
  - now apply sound_pushEvent.
  - now apply sound_pushContext.
  - now apply sound_finalizeContext.
  - now apply sound_removeDescendants.
  - now apply sound_transitionTo.
  - unfold do in Hdo. destruct (events st) as [|event rest]; [discriminate|].
    injection Hdo as <-. rewrite res_state_dispatch.
    apply sound_do_loop. cbn [contexts set_events].
    destruct IH. now split.
Qed.


Lemma omap_total {A B} (f : A -> option B) (l : list A) :
  Forall (fun x => is_Some (f x)) l ->
  length (omap f l) = length l /\ forall i, omap f l !! i = l !! i ≫= f.
Proof.
  induction 1 as [|x l [y Hy] _ [IH1 IH2]]; [now split|].
  cbn. rewrite Hy. cbn. split; [now rewrite IH1|].
  intros [|i]; cbn; [now rewrite Hy | apply IH2].
Qed.

(** What a handler sees of a sound stack: its contexts, one by one. *)
Lemma view_sound st :
  well_formed st ->
  length (view st) = length (contexts st) /\
  forall i, view st !! i = contexts st !! i ≫= (fun context => objects st !! context).
Proof.
  intros [W1 _ _ _]. apply omap_total.
  eapply Forall_impl; [exact W1|]. cbn. intros context. apply lookup_lt_is_Some.
Qed.

(** X14. In every state that the operations of the class lead to, whether
    they returned or threw: no context is on the stack twice; every
    context of the stack is a context object, with a cargo that is there;
    and no two context objects ever made have the same cargo, each
    [pushContext] having made a new one. *)
Theorem reachable_references st :
  reachable st ->
  NoDup (contexts st) /\
  Forall (fun context => exists c, objects st !! context = Some c /\
                                   is_Some (cargoes st !! cargo c)) (contexts st) /\
  (forall r1 r2 c1 c2,
     objects st !! r1 = Some c1 -> objects st !! r2 = Some c2 ->
     cargo c1 = cargo c2 -> r1 = r2).
Proof.
  intros [W1 W2 W3 W4]%reachable_sound. split; [exact W2|]. split; [|exact W4].
  eapply Forall_impl; [exact W1|]. cbn.
  intros context [c Hc]%lookup_lt_is_Some. exists c. split; [exact Hc|].
  apply lookup_lt_is_Some. exact (W3 _ _ Hc).
Qed.

(** X15. In every such state [getCargoStack] gives one cargo for each
    context of the stack, in the order of the stack: the cargo of that
    context.  The cargoes are all there, and no cargo comes twice. *)
Theorem getCargoStack_of_stack st :
  reachable st ->
  length (getCargoStack st) = length (contexts st) /\
  (forall i context,
     contexts st !! i = Some context ->
     exists c, objects st !! context = Some c /\
               getCargoStack st !! i = Some (cargo c)) /\
  Forall (fun cargo => is_Some (cargoes st !! cargo)) (getCargoStack st) /\
  NoDup (getCargoStack st).
Proof.
  intros W%reachable_sound. destruct (view_sound st W) as [Hlen Hview].
  destruct W as [W1 W2 W3 W4].
  assert (Hat : forall i k, getCargoStack st !! i = Some k ->
            exists context c, contexts st !! i = Some context /\
                              objects st !! context = Some c /\ cargo c = k).
  { intros i k. unfold getCargoStack. rewrite list_lookup_fmap, Hview.
    destruct (contexts st !! i) as [context|]; [|discriminate]. cbn.
    destruct (objects st !! context) as [c|] eqn:Hc; [|discriminate].
    intros [= <-]. now exists context, c. }
  split; [|split; [|split]].
  - unfold getCargoStack. now rewrite length_fmap.
  - intros i context Hi. rewrite Forall_forall in W1.
    destruct (lookup_lt_is_Some_2 (objects st) context) as [c Hc].
    { apply W1. eapply list_elem_of_lookup_2, Hi. }
    exists c. split; [exact Hc|].
    unfold getCargoStack. rewrite list_lookup_fmap, Hview, Hi. cbn.
    unfold ref in *. now rewrite Hc.
  - apply Forall_forall. intros k [i Hi]%list_elem_of_lookup_1.
    destruct (Hat i k Hi) as (context & c & _ & Hc & <-).
    apply lookup_lt_is_Some. exact (W3 _ _ Hc).
  - apply NoDup_alt. intros i j k Hi Hj.
    destruct (Hat i k Hi) as (r1 & c1 & Hr1 & Hc1 & E1).
    destruct (Hat j k Hj) as (r2 & c2 & Hr2 & Hc2 & E2).
    assert (r1 = r2) as -> by (apply (W4 _ _ _ _ Hc1 Hc2); congruence).
    exact (proj1 (NoDup_alt _) W2 i j r2 Hr1 Hr2).
Qed.


(** ** Looking a context up *)

Lemma list_find_agree {A} (P Q : A -> Prop) `{!forall x, Decision (P x)}
    `{!forall x, Decision (Q x)} (l : list A) :
  Forall (fun x => P x <-> Q x) l -> list_find P l = list_find Q l.
Proof.
  induction 1 as [|x l Hx _ IH]; [reflexivity|]. cbn.
  destruct (decide (P x)) as [HP|HP], (decide (Q x)) as [HQ|HQ]; try tauto.
  now rewrite IH.
Qed.

(** X16. [pushContext] for a system that can be entered, in a state that
    the operations of the class lead to.  The system pushed is then the
    recent system, but [getContext] finds the new context only if no
    context of that system was on the stack: it finds the one that is
    farthest from the top. *)
Theorem pushContext_then_lookup st systemName sys start :
  reachable st ->
  systems st !! systemName = Some sys ->
  sys !! "@start" = Some start ->
  (forall f v, onTransitionHandler start = Some f ->
               eff_completion (f systemName "@start" v) = Returns tt) ->
  exists st',
    pushContext systemName st = Ok tt st' /\
    isRecentSystem systemName (view st') = true /\
    getContext systemName st' =
      Some (default (length (objects st)) (getContext systemName st)).
Proof.
  intros [W1 _ _ _]%reachable_sound Hsys Hstart Hret.
  destruct (pushContext_returns st systemName sys start Hsys Hstart Hret)
    as (st' & Hpush & Hk & Ho & _).
  exists st'. split; [exact Hpush|].
  assert (Hnew : objects st' !! length (objects st)
                 = Some (mkContext systemName "@start" (length (cargoes st)))).
  { rewrite Ho. now apply list_lookup_middle. }
  split.
  - unfold isRecentSystem, view. rewrite Hk, omap_app. cbn. unfold ref in *. rewrite Hnew.
    rewrite last_snoc. cbn. apply String.eqb_refl.
  - unfold getContext. rewrite Hk.
    rewrite (list_find_agree
               (fun context => system <$> objects st !! context = Some systemName)
               (fun context => system <$> objects st' !! context = Some systemName)
               (contexts st)).
    2: { eapply Forall_impl; [exact W1|]. cbn.
         intros context [c Hc]%lookup_lt_is_Some.
         rewrite Ho, (lookup_app_l_Some _ _ _ _ Hc). unfold ref in *. now rewrite Hc. }
    destruct (list_find _ (contexts st)) as [[i context]|] eqn:Hfind.
    + now rewrite (list_find_app_l _ _ _ _ _ Hfind).
    + rewrite (list_find_app_r _ _ _ Hfind). cbn.
      rewrite decide_True; [reflexivity|]. unfold ref in *. now rewrite Hnew.
Qed.


(** ** The driver *)



(** X18. [start] on an automata that has no context does not return at
    once.  [do] first waits for an event; when there is one it is taken
    from the queue and offered to nobody, and only then does [start]
    return. *)
Theorem start_without_contexts fuel st :
  contexts st = [] ->
  start (S fuel) st =
  match events st with
  | [] => None
  | event :: rest => Some (Ok tt (observe (ObsYield event) (set_events (fun _ => rest) st)))
  end.
Proof.
  intros Hstack. cbn [start]. unfold do.
  destruct (events st) as [|event rest]; [reflexivity|].
  rewrite dispatch_eq. cbn [contexts set_events]. rewrite Hstack. cbn [do_loop].
  cbn. now rewrite Hstack.
Qed.


(** An event that is not a transition event of another system is offered. *)
Lemma not_skipped event systemName st :
  targetedElsewhere event systemName = false ->
  (if fieldIs (type event) "automata" && fieldIs (name event) "transition"
   then otherSystem event systemName else ret false) st = Ok false st.
Proof.
  unfold targetedElsewhere, otherSystem.
  destruct (fieldIs (type event) "automata" && fieldIs (name event) "transition");
    [|reflexivity].
  cbn. destruct (data event) as [[s| |]|]; try discriminate.
  now intros ->.
Qed.


(** X19. One call of [do] in which the handler of the outermost context
    answers the event by naming another state of its system.  The event
    is taken from the queue and offered to that context alone; the
    contexts nested in it are finalized and taken off the stack without
    having seen the event; the context is in the state named, the hook is
    notified and the transition is stamped, last of all; [do] returns
    [true]. *)
Theorem do_moves_outermost st event rest context above c sys state v next target :
  events st = event :: rest ->
  contexts st = context :: above ->
  targetedElsewhere event (system c) = false ->
  objects st !! context = Some c ->
  systems st !! system c = Some sys ->
  sys !! currentState c = Some state ->
  cargoes st !! cargo c = Some v ->
  eff_completion (handler state event v (view st)) = Returns (Some next) ->
  next <> "" ->
  next <> "@end" ->
  next <> "@current" ->
  next <> currentState c ->
  startsWithHash next = false ->
  sys !! next = Some target ->
  Forall (live st) above ->
  finalizers_return st ->
  (forall f to from v, onTransitionHandler target = Some f ->
     eff_completion (f to from v) = Returns tt) ->
  exists st',
    do st = Some (Ok true st') /\
    contexts st' = [context] /\
    objects st' !! context = Some (mkContext (system c) next (cargo c)) /\
    trace st' = trace st ++
      [ObsYield event;
       ObsRun AtDispatch context (system c) (currentState c) event (contexts st)] ++
      concat (finalizeRun st <$> above) ++
      from_option (fun _ => [ObsOnTransition next (currentState c) (cargo c)])
                  [] (onTransitionHandler target) ++
      hooked st ++ [ObsLatestTransition].
Proof.
  intros Hq Hstack Hpair Hc Hsys Hstate Hv He Hsome Hend Hcur Hne Hhash Htarget
         Hlive Hfin Hobs.
  set (st0 := observe (ObsYield event) (set_events (fun _ => rest) st)).
  set (o := ObsRun AtDispatch context (system c) (currentState c) event (contexts st)).
  set (e := handler state event v (view st)) in *.
  set (st1 := performed (cargo c) e (observe o st0)).
  assert (U : untouched st st1).
  { split; try reflexivity. cbn. apply length_insert. }
  destruct (state_moves st1 context 0 c sys target next)
    as (st2 & Hmove & Hk2 & Ho2 & _ & Ht2); try assumption.
  { change (contexts st1) with (contexts st). rewrite Hstack. cbn.
    now rewrite Nat.eqb_refl. }
  { apply lookup_lt_is_Some. rewrite (untouched_cargoes _ _ U).
    now apply lookup_lt_is_Some_1. }
  { change (contexts st1) with (contexts st). rewrite Hstack. cbn.
    eapply Forall_impl; [exact Hlive|]. intros x. now apply live_untouched. }
  change (contexts st1) with (contexts st) in Hk2, Ht2.
  rewrite Hstack in Hk2, Ht2. cbn [take drop] in Hk2, Ht2.
  exists (observe ObsLatestTransition st2).
  assert (Hloop : do_loop event (context :: above) st0
                  = Ok tt (observe ObsLatestTransition st2)).
  { cbn [do_loop]. do 2 exec. exec_with ltac:(now apply not_skipped).
    rewrite Hstate. exec.
    exec_with ltac:(apply (run_Ok _ _ _ _ _ _ _ v); [exact Hv | exact He]).
    destruct next as [|a next]; [contradiction|].
    exec_with ltac:(exact Hmove). reflexivity. }
  split; [|split; [|split]].
  - unfold do. rewrite Hq, dispatch_eq. cbn [contexts set_events]. fold st0.
    rewrite Hstack, Hloop. cbn [contexts observe]. now rewrite Hk2.
  - exact Hk2.
  - exact Ho2.
  - cbn [trace observe]. rewrite Ht2.
    erewrite (list_fmap_ext (finalizeRun st1) (finalizeRun st)).
    2: { intros _ x _. now apply finalizeRun_untouched. }
    unfold hooked. change (onUpdateContexts st1) with (onUpdateContexts st).
    change (trace st1) with ((trace st ++ [ObsYield event]) ++ [o]).
    rewrite <- !List.app_assoc. reflexivity.
Qed.


(** X20. One call of [do] in which the handler of the outermost context
    throws.  [do] throws; the event is gone from the queue all the same,
    what the handler did to its cargo and what it pushed before it threw
    stay, and no other context is offered the event. *)
Theorem do_handler_throws st event rest context above c sys state v :
  events st = event :: rest ->
  contexts st = context :: above ->
  targetedElsewhere event (system c) = false ->
  objects st !! context = Some c ->
  systems st !! system c = Some sys ->
  sys !! currentState c = Some state ->
  cargoes st !! cargo c = Some v ->
  eff_completion (handler state event v (view st)) = Throws ->
  exists st',
    do st = Some (Throw HandlerError st') /\
    events st' = rest ++ (default emptyEvent <$> eff_pushed (handler state event v (view st))) /\
    cargoes st' = <[cargo c := eff_cargo (handler state event v (view st))]> (cargoes st) /\
    contexts st' = contexts st /\
    objects st' = objects st /\
    trace st' = trace st ++
      [ObsYield event;
       ObsRun AtDispatch context (system c) (currentState c) event (contexts st)].
Proof.
  intros Hq Hstack Hhere Hc Hsys Hstate Hv He.
  set (st0 := observe (ObsYield event) (set_events (fun _ => rest) st)).
  set (o := ObsRun AtDispatch context (system c) (currentState c) event (contexts st)).
  exists (performed (cargo c) (handler state event v (view st)) (observe o st0)).
  split; [|cbn; now rewrite <- List.app_assoc].
  unfold do. rewrite Hq, dispatch_eq. cbn [contexts set_events]. fold st0.
  rewrite Hstack. cbn [do_loop]. do 2 exec.
  exec_with ltac:(now apply not_skipped). rewrite Hstate. exec.
  rewrite ?bind_assoc. unfold bind at 1.
  rewrite (run_eq _ _ _ _ _ _ _ v) by exact Hv. cbv zeta.
  unfold completes. change (view st0) with (view st). now rewrite He.
Qed.

(** X21. An answer that is the empty string is no answer: [do] goes on as
    if the handler had returned nothing.  With one context on the stack,
    a handler that returns nothing or the empty string leaves the context
    where it is; nothing is finalized, notified or stamped, and [do]
    returns [true]. *)
Theorem do_ignores_empty_answer st event rest context c sys state v answer :
  events st = event :: rest ->
  contexts st = [context] ->
  targetedElsewhere event (system c) = false ->
  objects st !! context = Some c ->
  systems st !! system c = Some sys ->
  sys !! currentState c = Some state ->
  cargoes st !! cargo c = Some v ->
  eff_completion (handler state event v (view st)) = Returns answer ->
  answer = None \/ answer = Some "" ->
  exists st',
    do st = Some (Ok true st') /\
    contexts st' = contexts st /\
    objects st' = objects st /\
    trace st' = trace st ++
      [ObsYield event;
       ObsRun AtDispatch context (system c) (currentState c) event (contexts st)].
Proof.
  intros Hq Hstack Hhere Hc Hsys Hstate Hv He Hanswer.
  set (st0 := observe (ObsYield event) (set_events (fun _ => rest) st)).
  set (o := ObsRun AtDispatch context (system c) (currentState c) event (contexts st)).
  exists (performed (cargo c) (handler state event v (view st)) (observe o st0)).
  split; [|cbn; now rewrite <- List.app_assoc].
  unfold do. rewrite Hq, dispatch_eq. cbn [contexts set_events]. fold st0.
  rewrite Hstack. cbn [do_loop]. do 2 exec.
  exec_with ltac:(now apply not_skipped). rewrite Hstate. exec.
  exec_with ltac:(apply (run_Ok _ _ _ _ _ _ _ v); [exact Hv | exact He]).
  destruct Hanswer as [-> | ->]; cbn;
    (replace (length (contexts st)) with 1%nat by now rewrite Hstack); reflexivity.
Qed.



End More.

(** * More of the engine at work *)

(** No [@finalize] handler of the systems of [Cases.registry] throws. *)
Lemma cases_finalizers_return (st : Automata Cases.Cargo) :
  systems st = Cases.registry -> finalizers_return st.
Proof.
  intros Hreg systemName sys state event v stack Hsys.
  rewrite Hreg in Hsys. unfold Cases.registry in Hsys.
  repeat (apply lookup_insert_Some in Hsys as [[_ <-]|[_ Hsys]];
          [intros [= <-] || intros [=]; now eexists|]).
  apply lookup_singleton_Some in Hsys as [_ <-]. intros [=].
Qed.

Lemma removeDescendants_off_stack_witness :
  (0 ∉ contexts Cases.orphaned) /\
  exists st',
    _removeDescendants 0 false Cases.orphaned = Ok tt st' /\
    contexts st' = [] /\
    trace st' = [ObsRun AtFinalize 1 "job" "@finalize" (finalizeEvent 1) [1; 2]].
Proof.
  assert (Hoff : 0 ∉ contexts Cases.orphaned).
  { intros H. repeat (apply elem_of_cons in H as [H|H]; [discriminate|]).
    now apply elem_of_nil in H. }
  split; [exact Hoff|].
  destruct (removeDescendants_off_stack Cases.orphaned 0 false Hoff)
    as (st' & H & Hc & _ & Ht).
  - repeat constructor.
    + exists (mkContext "job" "work" 1), Demo.job.
      split; [reflexivity|]. split; [reflexivity|]. now exists 5.
    + exists (mkContext "parent" "idle" 2), Cases.parent.
      split; [reflexivity|]. split; [reflexivity|]. now exists 6.
  - now apply cases_finalizers_return.
  - exists st'. split; [exact H|]. split; [exact Hc | exact Ht].
Defined.

Lemma removeDescendants_with_self_witness :
  findIndex (contexts Demo.nested) 1 = Z.of_nat 1 /\
  exists st',
    _removeDescendants 1 true Demo.nested = Ok tt st' /\
    contexts st' = [0] /\
    trace st' = [ObsRun AtFinalize 1 "job" "@finalize" (finalizeEvent 1) [0; 1]].
Proof.
  split; [reflexivity|].
  destruct (removeDescendants_with_self Demo.nested 1 1)
    as (st' & above & H & Hc & _ & Habove & Ht).
  - reflexivity.
  - repeat constructor. exists (mkContext "job" "work" 1), Demo.job.
    split; [reflexivity|]. split; [reflexivity|]. now exists 5.
  - exact demo_finalizers_return.
  - injection Habove as <-.
    exists st'. split; [exact H|]. split; [exact Hc | exact Ht].
Defined.

Lemma removeDescendants_idempotent_witness :
  _removeDescendants 0 false Demo.nested
    = Ok tt (res_state (_removeDescendants 0 false Demo.nested)) /\
  contexts (res_state (_removeDescendants 0 false Demo.nested)) = [0] /\
  _removeDescendants 0 false (res_state (_removeDescendants 0 false Demo.nested))
    = Ok tt (res_state (_removeDescendants 0 false Demo.nested)).
Proof.
  split; [reflexivity|]. split; [reflexivity|].
  apply (removeDescendants_idempotent Demo.nested 0). reflexivity.
Defined.

Lemma pushContext_unregistered_witness :
  Cases.registry !! "headless" = Some Cases.headless /\
  Cases.headless !! "@start" = None /\
  exists st',
    pushContext "headless" Cases.automata = Throw TypeError st' /\
    contexts st' = [0] /\
    objects st' = [mkContext "headless" "@start" 0] /\
    cargoes st' = [7] /\
    events st' = [] /\
    trace st' = [].
Proof.
  split; [reflexivity|]. split; [reflexivity|].
  apply (pushContext_unregistered Cases.automata "headless").
  now intros sys [= <-].
Defined.

Lemma transitionTo_child_enters_witness :
  findIndex (contexts Demo.nested) 1 = Z.of_nat 1 /\
  contexts Demo.nested !! 2%nat = None /\
  exists st',
    _transitionTo "#job" 1 Demo.nested = Ok true st' /\
    contexts st' = [0; 1; 2] /\
    objects st' = objects Demo.nested ++ [mkContext "job" "@start" 2] /\
    last (events st') = Some (entered "job").
Proof.
  split; [reflexivity|]. split; [reflexivity|].
  destruct (Demo.job !! "@start") as [start|] eqn:Hstart; [|discriminate].
  destruct (transitionTo_child_enters Demo.nested 1 1 (mkContext "job" "work" 1)
              "job" Demo.job start)
    as (st' & H & Hc & Ho & _ & He).
  - reflexivity.
  - reflexivity.
  - discriminate.
  - discriminate.
  - intros child [=].
  - constructor.
  - exact demo_finalizers_return.
  - reflexivity.
  - exact Hstart.
  - injection Hstart as <-. intros f v [= <-]. reflexivity.
  - exists st'. split; [exact H|]. split; [exact Hc|]. split; [exact Ho | exact He].
Defined.

Lemma transitionTo_own_system_enters_witness :
  findIndex (contexts Demo.nested) 0 = Z.of_nat 0 /\
  exists st',
    _transitionTo "#@current" 0 Demo.nested = Ok true st' /\
    contexts st' = [0; 2] /\
    objects st' = objects Demo.nested ++ [mkContext "job" "@start" 2] /\
    last (events st') = Some (entered "job").
Proof.
  split; [reflexivity|].
  destruct (Demo.job !! "@start") as [start|] eqn:Hstart; [|discriminate].
  destruct (transitionTo_own_system_enters Demo.nested 0 0 (mkContext "job" "work" 0)
              Demo.job start)
    as (st' & H & Hc & Ho & He).
  - reflexivity.
  - reflexivity.
  - discriminate.
  - repeat constructor. exists (mkContext "job" "work" 1), Demo.job.
    split; [reflexivity|]. split; [reflexivity|]. now exists 5.
  - exact demo_finalizers_return.
  - reflexivity.
  - exact Hstart.
  - injection Hstart as <-. intros f v [= <-]. reflexivity.
  - exists st'. split; [exact H|]. split; [exact Hc|]. split; [exact Ho | exact He].
Defined.

Lemma transitionTo_state_moves_witness :
  findIndex (contexts Demo.nested) 0 = Z.of_nat 0 /\
  objects Demo.nested !! 0 = Some (mkContext "job" "work" 0) /\
  is_Some (Demo.job !! "@start") /\
  exists st',
    _transitionTo "@start" 0 Demo.nested = Ok true st' /\
    contexts st' = [0] /\
    objects st' !! 0 = Some (mkContext "job" "@start" 0) /\
    trace st' = [ObsRun AtFinalize 1 "job" "@finalize" (finalizeEvent 1) [0; 1];
                 ObsOnTransition "@start" "work" 0;
                 ObsUpdateContexts].
Proof.
  split; [reflexivity|]. split; [reflexivity|].
  destruct (Demo.job !! "@start") as [state|] eqn:Hstate; [|discriminate].
  split; [now exists state|].
  destruct (transitionTo_state_moves Demo.nested 0 0 (mkContext "job" "work" 0)
              Demo.job state "@start")
    as (st' & H & Hc & Ho & _ & Ht).
  - reflexivity.
  - reflexivity.
  - discriminate.
  - discriminate.
  - discriminate.
  - reflexivity.
  - reflexivity.
  - exact Hstate.
  - now exists 3.
  - repeat constructor. exists (mkContext "job" "work" 1), Demo.job.
    split; [reflexivity|]. split; [reflexivity|]. now exists 5.
  - exact demo_finalizers_return.
  - injection Hstate as <-. intros f to from v [= <-]. reflexivity.
  - injection Hstate as <-.
    exists st'. split; [exact H|]. split; [exact Hc|]. split; [exact Ho | exact Ht].
Defined.

Lemma transitionTo_end_pops_the_top_witness :
  contexts Demo.nested = [0] ++ [1] /\
  objects Demo.nested !! 0 = Some (mkContext "job" "work" 0) /\
  objects Demo.nested !! 1 = Some (mkContext "job" "work" 1) /\
  exists st',
    _transitionTo "@end" 0 Demo.nested = Ok true st' /\
    contexts st' = [0] /\
    trace st' = [ObsRun AtEnd 0 "job" "@end" (endEvent 0) [0; 1];
                 ObsRun AtFinalize 1 "job" "@finalize" (finalizeEvent 1) [0];
                 ObsUpdateContexts].
Proof.
  split; [reflexivity|]. split; [reflexivity|]. split; [reflexivity|].
  destruct (transitionTo_end_pops_the_top Demo.nested 0 (mkContext "job" "work" 0)
              Demo.job 1 (mkContext "job" "work" 1) Demo.job [0])
    as (st' & H & Hc & _ & Ht).
  - reflexivity.
  - reflexivity.
  - now exists 3.
  - intros state event v stack [= <-]. now eexists.
  - reflexivity.
  - reflexivity.
  - reflexivity.
  - now exists 5.
  - intros state event v stack [= <-]. now eexists.
  - exists st'. split; [exact H|]. split; [exact Hc | exact Ht].
Defined.

Lemma transitionTo_end_of_nothing_witness :
  contexts Cases.retired = [] /\
  objects Cases.retired !! 0 = Some (mkContext "job" "work" 0) /\
  exists st',
    _transitionTo "@end" 0 Cases.retired = Ok false st' /\
    contexts st' = [] /\
    trace st' = [ObsRun AtEnd 0 "job" "@end" (endEvent 0) []].
Proof.
  split; [reflexivity|]. split; [reflexivity|].
  apply (transitionTo_end_of_nothing Cases.retired 0 (mkContext "job" "work" 0) Demo.job).
  - reflexivity.
  - reflexivity.
  - reflexivity.
  - now exists 3.
  - intros state event v stack [= <-]. now eexists.
Defined.

Lemma transitionTo_end_finalizer_throws_witness :
  contexts Cases.shaky = [0] ++ [1] /\
  objects Cases.shaky !! 1 = Some (mkContext "fragile" "@start" 1) /\
  is_Some (Demo.fragile !! "@finalize") /\
  exists st',
    _transitionTo "@end" 0 Cases.shaky = Throw HandlerError st' /\
    contexts st' = [0] /\
    last (trace st') =
      Some (ObsRun AtFinalize 1 "fragile" "@finalize" (finalizeEvent 1) [0]).
Proof.
  split; [reflexivity|]. split; [reflexivity|].
  destruct (Demo.fragile !! "@finalize") as [fin|] eqn:Hfin; [|discriminate].
  split; [now exists fin|].
  apply (transitionTo_end_finalizer_throws Cases.shaky 0 (mkContext "job" "work" 0)
           Demo.job 1 (mkContext "fragile" "@start" 1) Demo.fragile fin [0]).
  - reflexivity.
  - reflexivity.
  - now exists 3.
  - intros state event v stack [= <-]. now eexists.
  - reflexivity.
  - reflexivity.
  - reflexivity.
  - now exists 5.
  - exact Hfin.
  - injection Hfin as <-. reflexivity.
Defined.



Lemma reachable_references_witness :
  reachable (Cases.pushed "parent") /\
  NoDup (contexts (Cases.pushed "parent")) /\
  Forall (fun context => exists c, objects (Cases.pushed "parent") !! context = Some c /\
                                   is_Some (cargoes (Cases.pushed "parent") !! cargo c))
         (contexts (Cases.pushed "parent")).
Proof.
  assert (Hr : reachable (Cases.pushed "parent")).
  { apply reach_pushContext, reach_new; reflexivity. }
  split; [exact Hr|].
  destruct (reachable_references (Cases.pushed "parent") Hr) as (H1 & H2 & _).
  now split.
Defined.

Lemma getCargoStack_of_stack_witness :
  reachable (res_state (pushContext "job" (Cases.pushed "parent"))) /\
  getCargoStack (res_state (pushContext "job" (Cases.pushed "parent"))) = [0; 1] /\
  NoDup (getCargoStack (res_state (pushContext "job" (Cases.pushed "parent")))).
Proof.
  assert (Hr : reachable (res_state (pushContext "job" (Cases.pushed "parent")))).
  { apply reach_pushContext, reach_pushContext, reach_new; reflexivity. }
  split; [exact Hr|]. split; [reflexivity|].
  destruct (getCargoStack_of_stack _ Hr) as (_ & _ & _ & H).
  exact H.
Defined.

Lemma pushContext_then_lookup_witness :
  reachable (Cases.pushed "job") /\
  getContext "job" (Cases.pushed "job") = Some 0 /\
  exists st',
    pushContext "job" (Cases.pushed "job") = Ok tt st' /\
    isRecentSystem "job" (view st') = true /\
    getContext "job" st' = Some 0.
Proof.
  assert (Hr : reachable (Cases.pushed "job")).
  { apply reach_pushContext, reach_new; reflexivity. }
  split; [exact Hr|]. split; [reflexivity|].
  destruct (Demo.job !! "@start") as [start|] eqn:Hstart; [|discriminate].
  apply (pushContext_then_lookup (Cases.pushed "job") "job" Demo.job start Hr).
  - reflexivity.
  - exact Hstart.
  - injection Hstart as <-. intros f v [= <-]. reflexivity.
Defined.


Lemma start_without_contexts_witness :
  contexts (res_state (pushEvent None Cases.automata)) = [] /\
  start 1 (res_state (pushEvent None Cases.automata)) =
  Some (Ok tt (observe (ObsYield emptyEvent) Cases.automata)).
Proof.
  split; [reflexivity|].
  apply (start_without_contexts 0 (res_state (pushEvent None Cases.automata))).
  reflexivity.
Defined.

Lemma do_moves_outermost_witness :
  events (Cases.pushed "job") = [entered "job"] /\
  contexts (Cases.pushed "job") = [0] /\
  objects (Cases.pushed "job") !! 0 = Some (mkContext "job" "@start" 0) /\
  exists st',
    do (Cases.pushed "job") = Some (Ok true st') /\
    contexts st' = [0] /\
    objects st' !! 0 = Some (mkContext "job" "work" 0) /\
    trace st' = trace (Cases.pushed "job") ++
      [ObsYield (entered "job");
       ObsRun AtDispatch 0 "job" "@start" (entered "job") [0];
       ObsOnTransition "work" "@start" 0;
       ObsUpdateContexts;
       ObsLatestTransition].
Proof.
  split; [reflexivity|]. split; [reflexivity|]. split; [reflexivity|].
  destruct (Demo.job !! "@start") as [state|] eqn:Hstate; [|discriminate].
  destruct (Demo.job !! "work") as [target|] eqn:Htarget; [|discriminate].
  destruct (do_moves_outermost (Cases.pushed "job") (entered "job") [] 0 []
              (mkContext "job" "@start" 0) Demo.job state 8 "work" target)
    as (st' & H & Hc & Ho & Ht).
  - reflexivity.
  - reflexivity.
  - reflexivity.
  - reflexivity.
  - reflexivity.
  - exact Hstate.
  - reflexivity.
  - injection Hstate as <-. reflexivity.
  - discriminate.
  - discriminate.
  - discriminate.
  - discriminate.
  - reflexivity.
  - exact Htarget.
  - constructor.
  - now apply cases_finalizers_return.
  - injection Htarget as <-. intros f to from v [= <-]. reflexivity.
  - injection Htarget as <-.
    exists st'. split; [exact H|]. split; [exact Hc|]. split; [exact Ho | exact Ht].
Defined.

Lemma do_handler_throws_witness :
  events (Cases.pushed "faulty") = [entered "faulty"] /\
  contexts (Cases.pushed "faulty") = [0] /\
  exists st',
    do (Cases.pushed "faulty") = Some (Throw HandlerError st') /\
    events st' = [Demo.done] /\
    cargoes st' = [8] /\
    contexts st' = [0] /\
    objects st' = [mkContext "faulty" "@start" 0] /\
    trace st' = trace (Cases.pushed "faulty") ++
      [ObsYield (entered "faulty");
       ObsRun AtDispatch 0 "faulty" "@start" (entered "faulty") [0]].
Proof.
  split; [reflexivity|]. split; [reflexivity|].
  destruct (Cases.faulty !! "@start") as [state|] eqn:Hstate; [|discriminate].
  destruct (do_handler_throws (Cases.pushed "faulty") (entered "faulty") [] 0 []
              (mkContext "faulty" "@start" 0) Cases.faulty state 7)
    as (st' & H & He & Hv & Hc & Ho & Ht).
  - reflexivity.
  - reflexivity.
  - reflexivity.
  - reflexivity.
  - reflexivity.
  - exact Hstate.
  - reflexivity.
  - injection Hstate as <-. reflexivity.
  - injection Hstate as <-. exists st'. repeat split; assumption.
Defined.

Lemma do_ignores_empty_answer_witness :
  events (Cases.pushed "mute") = [entered "mute"] /\
  contexts (Cases.pushed "mute") = [0] /\
  exists st',
    do (Cases.pushed "mute") = Some (Ok true st') /\
    contexts st' = [0] /\
    objects st' = [mkContext "mute" "@start" 0] /\
    trace st' = trace (Cases.pushed "mute") ++
      [ObsYield (entered "mute");
       ObsRun AtDispatch 0 "mute" "@start" (entered "mute") [0]].
Proof.
  split; [reflexivity|]. split; [reflexivity|].
  destruct (Cases.mute !! "@start") as [state|] eqn:Hstate; [|discriminate].
  apply (do_ignores_empty_answer (Cases.pushed "mute") (entered "mute") [] 0
           (mkContext "mute" "@start" 0) Cases.mute state 7 (Some "")).
  - reflexivity.
  - reflexivity.
  - reflexivity.
  - reflexivity.
  - reflexivity.
  - exact Hstate.
  - reflexivity.
  - injection Hstate as <-. reflexivity.
  - now right.
Defined.


